(** * 445Project: chunked candle backfill, event resolution and resampling

    A shallow embedding of
      - [scripts/fetch_cb_history.py]  ([daterange_chunks], [main]),
      - [polymarket_btc/api.py]        ([_as_list], [_end_date],
                                        [get_all_btc_daily_events],
                                        [get_latest_btc_daily_event],
                                        [summarize_event],
                                        [build_time_series]),
      - [polymarket_btc/orderbook.py]  ([extract_token_ids_from_event],
                                        [fetch_latest_orderbooks]),
      - [polymarket_btc/recorders.py]  ([poll_trades_to_file]),
      - [scripts/resample_prices_history.py] ([resample_df], [process_files]),
      - [scripts/fetch_prices_history.py] ([parse_event], [main]),
    followed by the properties of these functions.

    Conventions.  Python exceptions are values of [exn]; a call either
    returns or raises ([result]); a loop that Python may run forever is
    given fuel and a third outcome [OutOfFuel].  Instants are integers
    (see [Datetime]); probabilities and prices are rationals, which is the
    exact arithmetic that the floating-point code approximates. *)

From Stdlib Require Import ZArith QArith List Bool Lia String DecimalString.
From Stdlib Require Import Sorting.Sorted Sorting.Permutation.
Import ListNotations.

Open Scope Z_scope.

(* ------------------------------------------------------------------------- *)
(** ** Exceptions and outcomes                                               *)
(* ------------------------------------------------------------------------- *)

Inductive exn : Type :=
| OverflowError
| ValueError (msg : string)
| TypeError
| AttributeError
| KeyError
| IndexError
| OSError (errno : Z)
| RequestException (msg : string).

(** A call that returns [a] or raises [e]. *)
Inductive result (A : Type) : Type :=
| Ok (a : A)
| Raise (e : exn).
Arguments Ok {A} a.
Arguments Raise {A} e.

Definition bind {A B : Type} (r : result A) (k : A -> result B) : result B :=
  match r with
  | Ok a => k a
  | Raise e => Raise e
  end.

Notation "x <- r ;; k" := (bind r (fun x => k))
  (at level 61, r at next level, right associativity).

(** The outcome of running a loop with a bounded number of iterations. *)
Inductive outcome (A : Type) : Type :=
| Returned (a : A)
| Raised (e : exn)
| OutOfFuel.
Arguments Returned {A} a.
Arguments Raised {A} e.
Arguments OutOfFuel {A}.

(* ------------------------------------------------------------------------- *)
(** ** [datetime] and [timedelta]                                            *)
(* ------------------------------------------------------------------------- *)

Module Datetime.

(** A [datetime] in UTC is the number of microseconds since
    0001-01-01T00:00:00 ([datetime.min]); a [timedelta] is a number of
    microseconds.  Both types are bounded in Python and their arithmetic
    raises [OverflowError] outside the bounds. *)
Definition datetime := Z.
Definition timedelta := Z.

Definition US_PER_SECOND : Z := 1000000.
Definition US_PER_DAY : Z := 86400000000.
(** [date.max.toordinal()]: 9999-12-31 is day 3652059, counting from 1. *)
Definition MAXORDINAL : Z := 3652059.
(** [timedelta.max.days]. *)
Definition MAX_DELTA_DAYS : Z := 999999999.
(** Days from 0001-01-01 to 1970-01-01. *)
Definition EPOCH_DAYS : Z := 719162.

Definition datetime_min : datetime := 0.
Definition datetime_max : datetime := MAXORDINAL * US_PER_DAY - 1.

Definition in_range (d : Z) : bool :=
  (datetime_min <=? d) && (d <=? datetime_max).

(** [timedelta(seconds=n)] for an [int] n: the days field is
    [n // 86400] and must lie within [-MAX_DELTA_DAYS, MAX_DELTA_DAYS]. *)
Definition timedelta_of_seconds (n : Z) : result timedelta :=
  let us := n * US_PER_SECOND in
  let days := us / US_PER_DAY in
  if (- MAX_DELTA_DAYS <=? days) && (days <=? MAX_DELTA_DAYS)
  then Ok us else Raise OverflowError.

(** [d + td]: raises when the sum leaves [datetime.min, datetime.max]. *)
Definition add (d : datetime) (td : timedelta) : result datetime :=
  let r := d + td in
  if in_range r then Ok r else Raise OverflowError.

(** The bounds of the C types [time_t] (64 bits) and [int] (32 bits), and
    the error number [EOVERFLOW]. *)
Definition TIME_T_MIN : Z := - 9223372036854775808.
Definition TIME_T_MAX : Z := 9223372036854775807.
Definition INT_MIN : Z := - 2147483648.
Definition INT_MAX : Z := 2147483647.
Definition EOVERFLOW : Z := 75.

(** The year of the proleptic Gregorian calendar (with a year 0 and
    negative years before it) in which the day [days] days after
    1970-01-01 lies: the year that [gmtime] finds. *)
Definition year_of_epoch_days (days : Z) : Z :=
  let z := days + 719468 in
  let era := z / 146097 in
  let doe := z - era * 146097 in
  let yoe := (doe - doe / 1460 + doe / 36524 - doe / 146096) / 365 in
  let y := yoe + era * 400 in
  let doy := doe - (365 * yoe + yoe / 4 - yoe / 100) in
  let mp := (5 * doy + 2) / 153 in
  if mp <? 10 then y else y + 1.

(** [str(n)] for an [int]. *)
Definition decimal (n : Z) : string := NilZero.string_of_int (Z.to_int n).

(** What [datetime.fromtimestamp(ts, tz=timezone.utc)] raises for epoch
    seconds that it cannot convert (CPython on a 64-bit Linux): a number
    that is no [time_t] gives [OverflowError]; a year that [gmtime] cannot
    store in [tm_year], an [int] counted from 1900, gives [OSError] with
    [EOVERFLOW]; any other year outside 1..9999 gives [ValueError] with
    the year in the message. *)
Definition fromtimestamp_error (ts : Z) : exn :=
  if (ts <? TIME_T_MIN) || (TIME_T_MAX <? ts) then OverflowError
  else
    let year := year_of_epoch_days (ts / 86400) in
    if (year - 1900 <? INT_MIN) || (INT_MAX <? year - 1900)
    then OSError EOVERFLOW
    else ValueError ("year " ++ decimal year ++ " is out of range").

(** [datetime.fromtimestamp(ts, tz=timezone.utc)] for integer epoch
    seconds. *)
Definition fromtimestamp (ts : Z) : result datetime :=
  let r := (ts + EPOCH_DAYS * 86400) * US_PER_SECOND in
  if in_range r then Ok r else Raise (fromtimestamp_error ts).

End Datetime.

(* ------------------------------------------------------------------------- *)
(** ** [sorted(xs, key=..., reverse=...)]                                    *)
(* ------------------------------------------------------------------------- *)

Section Sorted.

Context {A : Type}.
Variable key : A -> Z.

(** [before reverse a b]: [a] may stand before [b] in the sorted list. *)
Definition before (reverse : bool) (a b : A) : bool :=
  if reverse then key b <=? key a else key a <=? key b.

(** Python's sort is stable, also with [reverse=True]: elements with
    equal keys keep their original order.  [insert x l] puts [x], which
    came earlier than every element of [l], before the first element it
    may precede. *)
Fixpoint insert (reverse : bool) (x : A) (l : list A) : list A :=
  match l with
  | [] => [x]
  | y :: l' =>
      if before reverse x y then x :: l else y :: insert reverse x l'
  end.

Definition sorted (reverse : bool) (l : list A) : list A :=
  fold_right (insert reverse) [] l.

End Sorted.

(* ------------------------------------------------------------------------- *)
(** ** scripts/fetch_cb_history.py                                           *)
(* ------------------------------------------------------------------------- *)

Module FetchCbHistory.
Import Datetime.

Definition chunk : Type := datetime * datetime.

(** One resumption of a generator. *)
Inductive resumed (S Y : Type) : Type :=
| Yield (y : Y) (s : S)
| StopIteration
| Throw (e : exn).
Arguments Yield {S Y} y s.
Arguments StopIteration {S Y}.
Arguments Throw {S Y} e.

(** The first statements of the generator body, run at the first
    [next()]: [max_span = timedelta(seconds=granularity * 300)]. *)
Definition daterange_chunks_start (granularity : Z) : result timedelta :=
  timedelta_of_seconds (granularity * 300).

(** One turn of [while cur < end]: the state is [cur]. *)
Definition daterange_chunks_next (max_span : timedelta) (end_ : datetime)
    (cur : datetime) : resumed datetime chunk :=
  if cur <? end_ then
    match add cur max_span with
    | Raise e => Throw e
    | Ok s => let nxt := Z.min s end_ in Yield (cur, nxt) nxt
    end
  else StopIteration.

(** [list(...)] of the loop, at most [fuel] turns. *)
Fixpoint drain (fuel : nat) (max_span : timedelta) (end_ cur : datetime)
    : outcome (list chunk) :=
  match fuel with
  | O => OutOfFuel
  | S fuel' =>
      match daterange_chunks_next max_span end_ cur with
      | StopIteration => Returned []
      | Throw e => Raised e
      | Yield c cur' =>
          match drain fuel' max_span end_ cur' with
          | Returned l => Returned (c :: l)
          | Raised e => Raised e
          | OutOfFuel => OutOfFuel
          end
      end
  end.

(** [list(daterange_chunks(start, end, granularity))]. *)
Definition daterange_chunks (fuel : nat) (start end_ : datetime)
    (granularity : Z) : outcome (list chunk) :=
  match daterange_chunks_start granularity with
  | Raise e => Raised e
  | Ok max_span => drain fuel max_span end_ start
  end.

(** A candle as the exchange sends it,
    [[time, low, high, open, close, volume]]; [time] is in epoch
    seconds. *)
Record candle : Type := Candle {
  c_time : Z; c_low : Q; c_high : Q; c_open : Q; c_close : Q; c_volume : Q
}.

(** A row of the CSV file.  [timestamp] is the instant that the file
    shows as ISO-8601 text with a trailing Z. *)
Record row : Type := Row {
  timestamp : datetime;
  open : Q; high : Q; low : Q; close : Q; volume : Q
}.

(** The body of [for ts, low, high, opn, close, vol in candles]. *)
Definition row_of (c : candle) : result row :=
  t <- fromtimestamp (c_time c) ;;
  Ok {| timestamp := t; open := c_open c; high := c_high c;
        low := c_low c; close := c_close c; volume := c_volume c |}.

(** The inner loop: [rows] is complete before anything is written. *)
Fixpoint rows_of (candles : list candle) : result (list row) :=
  match candles with
  | [] => Ok []
  | c :: cs => r <- row_of c ;; rs <- rows_of cs ;; Ok (r :: rs)
  end.

(** What a run has done so far: the rows in the output file, the ranges
    it asked the exchange for (oldest first), and [total_chunks]. *)
Record run : Type := Run {
  file : list row;
  requested : list chunk;
  total_chunks : nat
}.

Section Main.

(** The exchange: the answer of [fetch_cb_candles] to the [n]-th request
    of the run (counting from 0), for the given range. *)
Variable fetch_cb_candles : nat -> datetime -> datetime -> result (list candle).

(** The body of the [for] loop of [main] for one chunk. *)
Definition main_body (st : run) (c : chunk) : run * result unit :=
  let (chunk_start, chunk_end) := c in
  let st1 := {| file := file st;
                requested := requested st ++ [c];
                total_chunks := total_chunks st |} in
  match fetch_cb_candles (List.length (requested st)) chunk_start chunk_end with
  | Raise e => (st1, Raise e)
  | Ok candles =>
      let candles := sorted c_time false candles in
      match rows_of candles with
      | Raise e => (st1, Raise e)
      | Ok rows =>
          ({| file := file st1 ++ rows;
              requested := requested st1;
              total_chunks := S (total_chunks st1) |}, Ok tt)
      end
  end.

(** The [for] loop of [main], driving the generator. *)
Fixpoint main_loop (fuel : nat) (max_span : timedelta) (end_ cur : datetime)
    (st : run) : run * outcome nat :=
  match fuel with
  | O => (st, OutOfFuel)
  | S fuel' =>
      match daterange_chunks_next max_span end_ cur with
      | StopIteration => (st, Returned (total_chunks st))
      | Throw e => (st, Raised e)
      | Yield c cur' =>
          match main_body st c with
          | (st', Raise e) => (st', Raised e)
          | (st', Ok _) => main_loop fuel' max_span end_ cur' st'
          end
      end
  end.

(** [main], after the arguments are parsed and the header is ensured:
    [existing] is what the output file already holds. *)
Definition main (fuel : nat) (start_dt end_dt : datetime) (granularity : Z)
    (existing : list row) : run * outcome nat :=
  let st := {| file := existing; requested := []; total_chunks := O |} in
  match daterange_chunks_start granularity with
  | Raise e => (st, Raised e)
  | Ok max_span => main_loop fuel max_span end_dt start_dt st
  end.

End Main.

End FetchCbHistory.

(* ------------------------------------------------------------------------- *)
(** ** polymarket_btc/api.py                                                 *)
(* ------------------------------------------------------------------------- *)

Module Api.
Import Datetime.

(** *** Event metadata and the choice of the current event *)

(** An entry of a series' [events] list, as far as the resolver reads it:
    [endDate] is the instant that [_parse_ts] reads from the ISO-8601 text
    ([None] when the key is missing or its value is falsy), [closed] the
    truth value of [evt.get("closed")]. *)
Record event : Type := Event {
  slug : string;
  endDate : option datetime;
  closed : bool
}.

Definition _end_date (evt : event) : datetime :=
  match endDate evt with
  | None => datetime_min
  | Some ts => ts
  end.

(** [get_all_btc_daily_events(load_details=False)] on the events that the
    series endpoint returned. *)
Definition get_all_btc_daily_events (events : list event) (closed_only : bool)
    : list event :=
  let events := if closed_only then filter closed events else events in
  sorted _end_date false events.

(** [xs[0]]. *)
Definition first {A : Type} (xs : list A) : result A :=
  match xs with
  | x :: _ => Ok x
  | [] => Raise IndexError
  end.

Definition NO_EVENTS : string :=
  "No events found for btc-up-or-down-daily series".

(** [get_latest_btc_daily_event(now, load_details=False)]: the value of
    [latest_meta].  With [load_details=True] the function goes on to fetch
    the payload of [latest_meta['slug']]. *)
Definition get_latest_btc_daily_event (events : list event) (now : datetime)
    : result event :=
  let base := get_all_btc_daily_events events false in
  match base with
  | [] => Raise (ValueError NO_EVENTS)
  | _ :: _ =>
      let candidates :=
        filter (fun evt => negb (closed evt) && (now <? _end_date evt)) base in
      match candidates with
      | _ :: _ => first (sorted _end_date false candidates)
      | [] => first (sorted _end_date true base)
      end
  end.

(** *** Payloads and [summarize_event] *)

(** A decoded JSON document, as [resp.json()] and [json.loads] build it. *)
#[local] Unset Elimination Schemes.
Inductive value : Type :=
| VNone
| VBool (b : bool)
| VInt (n : Z)
| VFloat (x : Q)
| VStr (s : string)
| VList (xs : list value)
| VDict (kvs : list (string * value)).
#[local] Set Elimination Schemes.

Definition dict : Type := list (string * value).

(** Truth value of an object, as [if], [or] and [not] take it. *)
Definition truthy (v : value) : bool :=
  match v with
  | VNone => false
  | VBool b => b
  | VInt n => negb (n =? 0)
  | VFloat x => negb (Qeq_bool x 0)
  | VStr s => negb (String.eqb s "")
  | VList xs => match xs with [] => false | _ :: _ => true end
  | VDict kvs => match kvs with [] => false | _ :: _ => true end
  end.

(** [a or b]. *)
Definition or_else (a b : value) : value := if truthy a then a else b.

(** [d.get(k, default)]. *)
Fixpoint get_default (d : dict) (k : string) (default : value) : value :=
  match d with
  | [] => default
  | (k', v) :: d' => if String.eqb k k' then v else get_default d' k default
  end.

(** [d.get(k)]. *)
Definition get (d : dict) (k : string) : value := get_default d k VNone.

(** [v.get(k)] on an arbitrary object: only a dict has the method. *)
Definition getattr_get (v : value) (k : string) : result value :=
  match v with
  | VDict d => Ok (get d k)
  | _ => Raise AttributeError
  end.

(** [v[0]]. *)
Definition item0 (v : value) : result value :=
  match v with
  | VList (x :: _) => Ok x
  | VList [] => Raise IndexError
  | VStr (String c _) => Ok (VStr (String c EmptyString))
  | VStr EmptyString => Raise IndexError
  | VDict _ => Raise KeyError
  | VNone | VBool _ | VInt _ | VFloat _ => Raise TypeError
  end.

Section Summarize.

(** [json.loads] on a text; it raises on a text that is not JSON. *)
Variable json_loads : string -> result value.

Definition _as_list (val : value) : value :=
  match val with
  | VList xs => VList xs
  | VNone => VList []
  | VStr s =>
      match json_loads s with
      | Ok v => v
      | Raise _ => VList []
      end
  | VBool _ | VInt _ | VFloat _ | VDict _ =>
      (* json.loads raises TypeError, caught by [except Exception] *)
      VList []
  end.

Definition summarize_event (event : dict) : result value :=
  let markets := or_else (get_default event "markets" (VList [])) (VList []) in
  mkt <- (if truthy markets then item0 markets else Ok (VDict [])) ;;
  outcomes0 <- getattr_get mkt "outcomes" ;;
  let outcomes := _as_list outcomes0 in
  prices0 <- getattr_get mkt "outcomePrices" ;;
  let prices := _as_list prices0 in
  liquidity <- getattr_get mkt "liquidity" ;;
  bestBid <- getattr_get mkt "bestBid" ;;
  bestAsk <- getattr_get mkt "bestAsk" ;;
  lastTradePrice <- getattr_get mkt "lastTradePrice" ;;
  oneDayPriceChange <- getattr_get mkt "oneDayPriceChange" ;;
  oneHourPriceChange <- getattr_get mkt "oneHourPriceChange" ;;
  clobTokenIds <- getattr_get mkt "clobTokenIds" ;;
  Ok (VDict [
    ("slug", get event "slug");
    ("endDate", get event "endDate");
    ("volume", get event "volume");
    ("volume24hr", get event "volume24hr");
    ("liquidity", or_else liquidity (get event "liquidity"));
    ("outcomes", outcomes);
    ("outcomePrices", prices);
    ("bestBid", bestBid);
    ("bestAsk", bestAsk);
    ("lastTradePrice", lastTradePrice);
    ("oneDayPriceChange", oneDayPriceChange);
    ("oneHourPriceChange", oneHourPriceChange);
    ("clobTokenIds", _as_list clobTokenIds)
  ])%string.

End Summarize.

End Api.

(* ------------------------------------------------------------------------- *)
(** ** scripts/resample_prices_history.py                                    *)
(* ------------------------------------------------------------------------- *)

Module Resample.

(** A pandas [Timestamp] (UTC) is a number of nanoseconds since the epoch,
    a [Timedelta] a number of nanoseconds. *)
Abbreviation Timestamp := Z (only parsing).
Abbreviation Timedelta := Z (only parsing).
Definition NS_PER_SECOND : Z := 1000000000.

(** [pd.to_datetime(t, unit="s", utc=True)] for integer seconds. *)
Definition to_datetime (t : Z) : Timestamp := t * NS_PER_SECOND.

(** [.dt.total_seconds()]. *)
Definition total_seconds (td : Timedelta) : Q := td # 1000000000.

(** A row of the frame that [load_history] returns: columns [ts], [prob]. *)
Abbreviation obs := (Z * Q)%type (only parsing).

(** A series with a time index whose values may be missing (NaN). *)
Abbreviation series := (list (Z * option Q)) (only parsing).

(** *** [Series.resample(rule, origin=origin).mean()]

    For a fixed-frequency rule of [freq] nanoseconds, bins are closed on
    the left and labelled by their left edge.  The edges start at the
    first index value moved down onto the grid through [origin] and end
    at the first grid point beyond the last index value.

    Values are rational numbers and the mean is exact: pandas computes it
    on [float64], so that the value of the code is this one rounded. *)

Definition sum (xs : list Q) : Q := fold_left Qplus xs 0%Q.

Definition mean (xs : list Q) : option Q :=
  match xs with
  | [] => None
  | _ :: _ => Some (sum xs / inject_Z (Z.of_nat (List.length xs)))%Q
  end.

(** The rows before the bin edge, and the rest. *)
Fixpoint split_before (edge : Timestamp) (l : list obs) : list obs * list obs :=
  match l with
  | [] => ([], [])
  | o :: r =>
      if fst o <? edge then
        let (here, rest) := split_before edge r in (o :: here, rest)
      else ([], l)
  end.

(** [n] consecutive bins of width [freq] from [left], filled by one pass
    over the rows in index order. *)
Fixpoint bins (n : nat) (left : Timestamp) (freq : Z) (l : list obs)
    : list (Timestamp * list obs) :=
  match n with
  | O => []
  | S n' =>
      let (here, rest) := split_before (left + freq) l in
      (left, here) :: bins n' (left + freq) freq rest
  end.

Definition resample_mean (freq : Z) (origin : Timestamp) (l : list obs)
    : series :=
  let l := sorted fst false l in
  match l with
  | [] => []
  | (first, _) :: _ =>
      let last := fst (List.last l (first, 0%Q)) in
      let fresult := first - (first - origin) mod freq in
      let lresult := last + (freq - (last - origin) mod freq) in
      let n := Z.to_nat ((lresult - fresult) / freq) in
      map (fun b => (fst b, mean (map snd (snd b)))) (bins n fresult freq l)
  end.

(** *** [Series.ffill()] *)

Fixpoint ffill_from (prev : option Q) (vs : list (option Q)) : list (option Q) :=
  match vs with
  | [] => []
  | v :: r =>
      let v' := match v with Some x => Some x | None => prev end in
      v' :: ffill_from v' r
  end.

Definition ffill_values (vs : list (option Q)) : list (option Q) :=
  ffill_from None vs.

(** *** [Series.interpolate()]

    The default method is linear in the position, fills forward only:
    missing values before the first valid one stay missing, those
    between two valid ones lie on the line through them, and those after
    the last valid one repeat it. *)

(** The distance to the next valid value (0 for the head) and the value. *)
Fixpoint next_valid (vs : list (option Q)) : option (nat * Q) :=
  match vs with
  | [] => None
  | Some y :: _ => Some (O, y)
  | None :: r =>
      match next_valid r with
      | Some (d, y) => Some (S d, y)
      | None => None
      end
  end.

(** The point at distance [g] after [x] on the line that reaches [y] at
    distance [g + d]. *)
Definition lerp (x y : Q) (g d : nat) : Q :=
  (x + (y - x) * (inject_Z (Z.of_nat g) / inject_Z (Z.of_nat (g + d))))%Q.

(** [prev] is the last valid value and the distance from it to the head
    of [vs]. *)
Fixpoint interpolate_from (prev : option (nat * Q)) (vs : list (option Q))
    : list (option Q) :=
  match vs with
  | [] => []
  | Some y :: r => Some y :: interpolate_from (Some (1%nat, y)) r
  | None :: r =>
      let v :=
        match prev with
        | None => None
        | Some (g, x) =>
            match next_valid r with
            | Some (d, y) => Some (lerp x y g (S d))
            | None => Some x
            end
        end in
      let prev' :=
        match prev with
        | None => None
        | Some (g, x) => Some (S g, x)
        end in
      v :: interpolate_from prev' r
  end.

Definition interpolate_values (vs : list (option Q)) : list (option Q) :=
  interpolate_from None vs.

(** A series with its values replaced. *)
Definition with_values (rs : series) (f : list (option Q) -> list (option Q))
    : series :=
  combine (map fst rs) (f (map snd rs)).

Definition ffill (rs : series) : series := with_values rs ffill_values.
Definition interpolate (rs : series) : series := with_values rs interpolate_values.

(** *** [resample_df] and [process_files] *)

(** [rule] is a fixed frequency such as [30min], a positive number of
    nanoseconds. *)
Definition resample_df (df : list obs) (rule : positive) (method : string)
    : series :=
  match df with
  | [] => []
  | (origin, _) :: _ =>
      let rs := resample_mean (Zpos rule) origin df in
      if String.eqb method "ffill" then ffill rs
      else if String.eqb method "linear" then interpolate rs
      else rs
  end.

(** A row of the CSV file: [ts], [prob], [elapsed_hours]. *)
Abbreviation out_row := (Z * option Q * Q)%type (only parsing).

(** The body of the loop of [process_files] for one loaded frame: [None]
    when the frame is skipped ([continue]). *)
Definition process_file (df : list obs) (rule : positive) (method : string)
    : option (list out_row) :=
  let rs := resample_df df rule method in
  match rs with
  | [] => None
  | (start, _) :: _ =>
      Some (map (fun r => (r, (total_seconds (fst r - start)%Z / 3600)%Q)) rs)
  end.

(** [process_files] on the frames loaded from the sorted paths: the files
    written, in order. *)
Fixpoint process_files (dfs : list (string * list obs)) (rule : positive)
    (method : string) : list (string * list out_row) :=
  match dfs with
  | [] => []
  | (stem, df) :: rest =>
      match process_file df rule method with
      | None => process_files rest rule method
      | Some rows => (stem, rows) :: process_files rest rule method
      end
  end.

End Resample.

(* ------------------------------------------------------------------------- *)
(** ** polymarket_btc/api.py: hydrated series and their summaries            *)
(* ------------------------------------------------------------------------- *)

Module ApiSeries.
Import Datetime Api.

Section Hydrate.

(** The events endpoint: the answer to the [n]-th request for details
    (counting from 0), made for the given slug. *)
Variable fetch_event : nat -> string -> result value.

(** [str(exc)]. *)
Variable str_exc : exn -> string.

(** What is kept for an event whose details could not be fetched. *)
Definition placeholder (evt : event) (exc : exn) : value :=
  VDict [("slug", VStr (slug evt)); ("error", VStr (str_exc exc))]%string.

(** The loop [for evt in ordered] of [get_all_btc_daily_events]; [n] is
    the number of requests made so far. *)
Fixpoint hydrate (n : nat) (ordered : list event) : list value :=
  match ordered with
  | [] => []
  | evt :: rest =>
      let entry :=
        match fetch_event n (slug evt) with
        | Ok payload => payload
        | Raise exc => placeholder evt exc
        end in
      entry :: hydrate (S n) rest
  end.

(** [get_all_btc_daily_events(load_details=True)]. *)
Definition get_all_btc_daily_events_detailed (events : list event)
    (closed_only : bool) : list value :=
  hydrate 0 (get_all_btc_daily_events events closed_only).

End Hydrate.

Section Series.

Variable json_loads : string -> result value.

(** [summarize_event(event)] on whatever the list holds: only a dict has
    [get]. *)
Definition summarize_value (v : value) : result value :=
  match v with
  | VDict d => summarize_event json_loads d
  | _ => Raise AttributeError
  end.

(** [[summarize_event(evt) for evt in events]]. *)
Fixpoint build_time_series (events : list value) : result (list value) :=
  match events with
  | [] => Ok []
  | evt :: rest =>
      row <- summarize_value evt ;;
      rows <- build_time_series rest ;;
      Ok (row :: rows)
  end.

End Series.

End ApiSeries.

(* ------------------------------------------------------------------------- *)
(** ** polymarket_btc/orderbook.py                                           *)
(* ------------------------------------------------------------------------- *)

Module Orderbook.
Import Api.

(** The keys of a dict, each once, in the order of their first entry. *)
Definition keys (d : dict) : list string :=
  rev (nodup string_dec (rev (map fst d))).

(** The items that a [for] loop or [list.extend] takes from an object. *)
Definition iterate (v : value) : result (list value) :=
  match v with
  | VList xs => Ok xs
  | VStr s =>
      Ok (map (fun c => VStr (String c EmptyString)) (list_ascii_of_string s))
  | VDict d => Ok (map VStr (keys d))
  | VNone | VBool _ | VInt _ | VFloat _ => Raise TypeError
  end.

Section Tokens.

Variable json_loads : string -> result value.

(** The loop [for mkt in ...: tokens.extend(...)]. *)
Fixpoint extend_tokens (tokens : list value) (markets : list value)
    : result (list value) :=
  match markets with
  | [] => Ok tokens
  | mkt :: rest =>
      raw <- getattr_get mkt "clobTokenIds" ;;
      items <- iterate (_as_list json_loads raw) ;;
      extend_tokens (tokens ++ items) rest
  end.

Definition extract_token_ids_from_event (event : dict) : result (list value) :=
  let markets := or_else (get_default event "markets" (VList [])) (VList []) in
  mkts <- iterate markets ;;
  extend_tokens [] mkts.

End Tokens.

End Orderbook.

(* ------------------------------------------------------------------------- *)
(** ** polymarket_btc/recorders.py                                            *)
(* ------------------------------------------------------------------------- *)

Module Recorders.
Import Api.

(** What the recorder does to the world: a line appended to the ndjson
    file, or a pause. *)
Inductive action : Type :=
| Append (obj : dict)
| Sleep (sec : Z).

Section Poll.

(** The answer of the trades endpoint to poll number [i], the reading of
    the clock in iteration [i], and [str(exc)]. *)
Variable fetch_trades : nat -> string -> result value.
Variable time_time : nat -> Q.
Variable str_exc : exn -> string.

(** The record of iteration [i]: the trades, or the error. *)
Definition record (token_id : string) (i : nat) : dict :=
  match fetch_trades i token_id with
  | Ok trades =>
      [("ts", VFloat (time_time i)); ("token_id", VStr token_id);
       ("trades", trades)]
  | Raise exc =>
      [("ts", VFloat (time_time i)); ("token_id", VStr token_id);
       ("error", VStr (str_exc exc))]
  end%string.

(** [time.sleep(secs)] raises on a negative length. *)
Definition sleep (secs : Z) : result (list action) :=
  if secs <? 0 then Raise (ValueError "sleep length must be non-negative")
  else Ok [Sleep secs].

(** The iterations [i], [i + 1], ... of the loop, [n] of them; what was
    done, and the exception that ended the loop if one did. *)
Fixpoint poll_loop (token_id : string) (interval_sec iterations : Z)
    (i n : nat) : list action * result unit :=
  match n with
  | O => ([], Ok tt)
  | S n' =>
      let appended := Append (record token_id i) in
      if Z.of_nat i <? iterations - 1 then
        match sleep interval_sec with
        | Raise e => ([appended], Raise e)
        | Ok slept =>
            let (done, r) :=
              poll_loop token_id interval_sec iterations (S i) n' in
            (appended :: slept ++ done, r)
        end
      else
        let (done, r) := poll_loop token_id interval_sec iterations (S i) n' in
        (appended :: done, r)
  end.

(** [range(iterations)] is empty for a negative number. *)
Definition poll_trades_to_file (token_id : string)
    (interval_sec iterations : Z) : list action * result unit :=
  poll_loop token_id interval_sec iterations 0 (Z.to_nat iterations).

End Poll.

End Recorders.

(* ------------------------------------------------------------------------- *)
(** ** scripts/fetch_prices_history.py                                        *)
(* ------------------------------------------------------------------------- *)

Module FetchPricesHistory.
Import Api Orderbook.

Section Parse.

(** [json.loads], and [int(pd.to_datetime(val, utc=True).timestamp())]
    with [None] for the values on which it raises. *)
Variable json_loads : string -> result value.
Variable timestamp_of : value -> option Z.

(** The [try] block of [parse_event]: [json.loads] of a text, [list] of
    anything else; [None] when the handler returns. *)
Definition token_ids_of (token_ids_raw : value) : option value :=
  match token_ids_raw with
  | VStr s =>
      match json_loads s with
      | Ok v => Some v
      | Raise _ => None
      end
  | _ =>
      match iterate token_ids_raw with
      | Ok xs => Some (VList xs)
      | Raise _ => None
      end
  end.

(** The inner function [to_ts]. *)
Definition to_ts (m0 event : value) (key : string) : result (option Z) :=
  a <- getattr_get m0 key ;;
  val <- (if truthy a then Ok a else getattr_get event key) ;;
  Ok (if truthy val then timestamp_of val else None).

(** [a or b] on optional integers: 0 is falsy as [None] is. *)
Definition or_ts (a : option Z) (b : result (option Z)) : result (option Z) :=
  match a with
  | Some t => if t =? 0 then b else Ok (Some t)
  | None => b
  end.

Definition parse_event (event : value) : result (option (value * Z * Z)) :=
  mk <- getattr_get event "markets" ;;
  let markets := or_else mk (VList []) in
  if negb (truthy markets) then Ok None else
  m0 <- item0 markets ;;
  a <- getattr_get m0 "clobTokenIds" ;;
  token_ids_raw <- (if truthy a then Ok a else getattr_get m0 "tokenIds") ;;
  match token_ids_of token_ids_raw with
  | None => Ok None
  | Some token_ids =>
      start0 <- to_ts m0 event "startDate" ;;
      start_ts <- or_ts start0 (to_ts m0 event "creationDate") ;;
      end_ts <- to_ts m0 event "endDate" ;;
      match start_ts, end_ts with
      | Some s, Some e => Ok (Some (token_ids, s, e))
      | _, _ => Ok None
      end
  end.

End Parse.

(** [len(v)]. *)
Definition len (v : value) : result nat :=
  match v with
  | VList xs => Ok (List.length xs)
  | VStr s => Ok (String.length s)
  | VDict d => Ok (List.length (keys d))
  | VNone | VBool _ | VInt _ | VFloat _ => Raise TypeError
  end.

(** The arguments that the loop of [main] reads. *)
Record args : Type := {
  interval : string;
  fidelity : Z;
  sleep : Q
}.

(** A file written: the slug and the token id of its name, and the
    payload. *)
Abbreviation file := (string * value * value)%type (only parsing).

(** The state of a run: the files written, in order, the two counters,
    and the numbers of requests made to each endpoint. *)
Record run : Type := Run {
  files : list file;
  fetched : nat;
  skipped : nat;
  event_requests : nat;
  history_requests : nat
}.

Definition start_run : run :=
  {| files := []; fetched := 0; skipped := 0;
     event_requests := 0; history_requests := 0 |}.

Section Main.

Variable json_loads : string -> result value.
Variable timestamp_of : value -> option Z.

(** [fetch_event(slug)], the answer to request number [n]: a payload,
    [None] for a status other than 200 or a body that is not JSON, or the
    exception that [requests.get] raised. *)
Variable fetch_event : nat -> string -> result value.

(** [fetch_history(token_id, start_ts, end_ts, interval, fidelity)], the
    answer to request number [n]. *)
Variable fetch_history :
  nat -> value -> Z -> Z -> string -> option Z -> result value.

Variable a : args.

Definition fidelity_arg : option Z :=
  if String.eqb (interval a) "1m" then Some (fidelity a) else None.

Definition payload (slug : string) (token_id : value) (start_ts end_ts : Z)
    (hist : value) : value :=
  VDict [ ("slug", VStr slug);
          ("token_id", token_id);
          ("startTs", VInt start_ts);
          ("endTs", VInt end_ts);
          ("interval", VStr (interval a));
          ("fidelity", match fidelity_arg with
                       | Some f => VInt f
                       | None => VNone
                       end);
          ("history", hist) ]%string.

(** The loop [for token_id in token_ids]. *)
Fixpoint token_loop (slug : string) (start_ts end_ts : Z) (st : run)
    (token_ids : list value) : run * result unit :=
  match token_ids with
  | [] => (st, Ok tt)
  | token_id :: rest =>
      let n := history_requests st in
      let st :=
        {| files := files st; fetched := fetched st; skipped := skipped st;
           event_requests := event_requests st;
           history_requests := S n |} in
      match fetch_history n token_id start_ts end_ts (interval a)
              fidelity_arg with
      | Raise _ => token_loop slug start_ts end_ts st rest
      | Ok hist =>
          let st :=
            {| files := files st ++
                        [(slug, token_id,
                          payload slug token_id start_ts end_ts hist)];
               fetched := S (fetched st); skipped := skipped st;
               event_requests := event_requests st;
               history_requests := history_requests st |} in
          match len hist with
          | Raise e => (st, Raise e)
          | Ok _ =>
              if Qle_bool 0 (sleep a) then
                token_loop slug start_ts end_ts st rest
              else
                (st, Raise (ValueError "sleep length must be non-negative"))
          end
      end
  end.

Definition skip (st : run) : run :=
  {| files := files st; fetched := fetched st; skipped := S (skipped st);
     event_requests := event_requests st;
     history_requests := history_requests st |}.

(** The loop [for slug in slugs]. *)
Fixpoint slug_loop (st : run) (slugs : list string) : run * result unit :=
  match slugs with
  | [] => (st, Ok tt)
  | slug :: rest =>
      let n := event_requests st in
      let st :=
        {| files := files st; fetched := fetched st; skipped := skipped st;
           event_requests := S n;
           history_requests := history_requests st |} in
      match fetch_event n slug with
      | Raise e => (st, Raise e)
      | Ok event =>
          if negb (truthy event) then slug_loop (skip st) rest else
          match parse_event json_loads timestamp_of event with
          | Raise e => (st, Raise e)
          | Ok None => slug_loop (skip st) rest
          | Ok (Some (token_ids, start_ts, end_ts)) =>
              match iterate token_ids with
              | Raise e => (st, Raise e)
              | Ok tokens =>
                  let (st, r) := token_loop slug start_ts end_ts st tokens in
                  match r with
                  | Raise e => (st, Raise e)
                  | Ok _ => slug_loop st rest
                  end
              end
          end
      end
  end.

(** [main] from the selected slugs on. *)
Definition main (slugs : list string) : run * result unit :=
  slug_loop start_run slugs.

End Main.

End FetchPricesHistory.

(* ------------------------------------------------------------------------- *)
(** ** polymarket_btc/orderbook.py: the books of the newest event             *)
(* ------------------------------------------------------------------------- *)

Module LatestBooks.
Import Api Orderbook.

(** Lists and dicts cannot be keys of a dict. *)
Definition hashable (v : value) : bool :=
  match v with
  | VList _ | VDict _ => false
  | VNone | VBool _ | VInt _ | VFloat _ | VStr _ => true
  end.

(** The number that a bool, an int or a float is. *)
Definition number (v : value) : option Q :=
  match v with
  | VBool b => Some (if b then 1 else 0)%Q
  | VInt n => Some (inject_Z n)
  | VFloat x => Some x
  | VNone | VStr _ | VList _ | VDict _ => None
  end.

(** [a == b] on keys: [True == 1 == 1.0]. *)
Definition key_eq (a b : value) : bool :=
  match a, b with
  | VNone, VNone => true
  | VStr s, VStr t => String.eqb s t
  | _, _ =>
      match number a, number b with
      | Some x, Some y => Qeq_bool x y
      | _, _ => false
      end
  end.

(** A dict with keys of any hashable type, in insertion order. *)
Abbreviation books := (list (value * value)) (only parsing).

(** [b[k] = v]: an entry that exists keeps its place and its key. *)
Fixpoint setitem (b : books) (k v : value) : books :=
  match b with
  | [] => [(k, v)]
  | (k', v') :: r =>
      if key_eq k k' then (k', v) :: r else (k', v') :: setitem r k v
  end.

(** [b.get(k)]. *)
Fixpoint lookup (b : books) (k : value) : option value :=
  match b with
  | [] => None
  | (k', v') :: r => if key_eq k k' then Some v' else lookup r k
  end.

Section Fetch.

Variable json_loads : string -> result value.

(** [fetch_orderbook_rest(token_id)], the answer to request number [n],
    and [str(exc)]. *)
Variable fetch_orderbook_rest : nat -> value -> result value.
Variable str_exc : exn -> string.

(** What is stored for request number [n]: the book, or the error. *)
Definition entry (n : nat) (token_id : value) : value :=
  match fetch_orderbook_rest n token_id with
  | Ok book => book
  | Raise exc => VDict [("error", VStr (str_exc exc))]%string
  end.

(** The loop [for token_id in tokens].  Storing under a key that cannot
    be hashed raises in the [try] block and again in the handler. *)
Fixpoint books_loop (n : nat) (b : books) (tokens : list value)
    : result books :=
  match tokens with
  | [] => Ok b
  | token_id :: rest =>
      let v := entry n token_id in
      if hashable token_id then books_loop (S n) (setitem b token_id v) rest
      else Raise TypeError
  end.

Definition fetch_latest_orderbooks (full_events : list value)
    : result books :=
  match rev full_events with
  | [] => Ok []
  | latest_evt :: _ =>
      tokens <- match latest_evt with
                | VDict event => extract_token_ids_from_event json_loads event
                | _ => Raise AttributeError
                end ;;
      books_loop 0 [] tokens
  end.

End Fetch.

End LatestBooks.

(* ------------------------------------------------------------------------- *)
(** ** Vocabulary of the statements                                          *)
(* ------------------------------------------------------------------------- *)

(** Strictly ascending, ascending. *)
Definition ascending (l : list Z) : Prop := StronglySorted Z.le l.
Definition strictly_ascending (l : list Z) : Prop := StronglySorted Z.lt l.

Module ChunkSpec.
Import Datetime FetchCbHistory.

(** Each interval ends where the next one starts. *)
Fixpoint chained (l : list chunk) : Prop :=
  match l with
  | a :: (b :: _) as r => snd a = fst b /\ chained r
  | _ => True
  end.

(** [t] lies in the half-open interval [c]. *)
Definition holds (t : datetime) (c : chunk) : bool :=
  (fst c <=? t) && (t <? snd c).

(** The number of intervals of [l] that hold [t]. *)
Definition cover (l : list chunk) (t : datetime) : nat :=
  List.length (filter (holds t) l).

(** [l] leads from [a] to [b] in non-empty steps of at most [span]. *)
Inductive tiling (span : Z) : datetime -> datetime -> list chunk -> Prop :=
| tiling_nil a : tiling span a a []
| tiling_cons a b c l :
    a < b -> b - a <= span -> tiling span b c l ->
    tiling span a c ((a, b) :: l).

(** The generator never stops, however long it is run. *)
Definition runs_forever (start end_ : datetime) (granularity : Z) : Prop :=
  forall fuel, daterange_chunks fuel start end_ granularity = OutOfFuel.

(** The widest span the planner allows, in microseconds. *)
Definition max_width (granularity : Z) : Z := granularity * 300 * US_PER_SECOND.

End ChunkSpec.

Module BackfillSpec.
Import Datetime FetchCbHistory.

(** The instant of a candle, as [row_of] computes it when it is in range. *)
Definition row_time (c : candle) : datetime :=
  (c_time c + EPOCH_DAYS * 86400) * US_PER_SECOND.

Definition valid_time (c : candle) : Prop := in_range (row_time c) = true.

(** The row that [row_of] builds for a candle with a valid time. *)
Definition to_row (c : candle) : row :=
  {| timestamp := row_time c; open := c_open c; high := c_high c;
     low := c_low c; close := c_close c; volume := c_volume c |}.

(** The rows appended for one response, and for the responses of a run. *)
Definition rows_for (response : list candle) : list row :=
  map to_row (sorted c_time false response).

Definition written (responses : list (list candle)) : list row :=
  List.concat (map rows_for responses).

(** The exchange answers the requests for the chunks [l], the first of
    which is request number [k], with [responses]. *)
Fixpoint answers (fetch : nat -> datetime -> datetime -> result (list candle))
    (k : nat) (l : list chunk) (responses : list (list candle)) : Prop :=
  match l, responses with
  | [], [] => True
  | c :: l', r :: responses' =>
      fetch k (fst c) (snd c) = Ok r /\ answers fetch (S k) l' responses'
  | _, _ => False
  end.

(** No time occurs twice in a response, and every time of a response is
    before every time of the later responses. *)
Fixpoint separated (responses : list (list candle)) : Prop :=
  match responses with
  | [] => True
  | r :: rest =>
      NoDup (map c_time r) /\
      (forall a b, In a r -> In b (List.concat rest) -> c_time a < c_time b) /\
      separated rest
  end.

(** Two exchanges for the examples.  [boundary_exchange] answers newest
    first and includes the candle at the end of the requested range, so
    that two adjacent chunks both hold the candle at their common
    boundary. *)
Definition flat (t : Z) : candle :=
  {| c_time := t; c_low := 1; c_high := 1; c_open := 1; c_close := 1;
     c_volume := 0 |}.

Definition boundary_exchange (n : nat) (_ _ : datetime) : result (list candle) :=
  match n with
  | O => Ok [flat 1451696400; flat 1451696100]
  | _ => Ok [flat 1451696700; flat 1451696400]
  end.

(** [steady_exchange] answers every request with two candles, newest
    first. *)
Definition steady_exchange (n : nat) (_ _ : datetime) : result (list candle) :=
  Ok [flat (1451606400 + 90000 * Z.of_nat n + 300);
      flat (1451606400 + 90000 * Z.of_nat n)].

(** 2016-01-01T00:00:00Z, 26 hours later and 60 hours later. *)
Definition jan1 : datetime := 63587203200000000.
Definition jan2_2am : datetime := 63587296800000000.
Definition jan3_noon : datetime := 63587419200000000.

(** [flaky_exchange] fails on the second request only. *)
Definition flaky_exchange (n : nat) (_ _ : datetime) : result (list candle) :=
  match n with
  | 1%nat => Raise (RequestException "503 Server Error")
  | _ => Ok [flat (1451606400 + 90000 * Z.of_nat n)]
  end.

End BackfillSpec.

Module ApiSpec.
Import Datetime Api.

(** An instance is open and in the future of [now]. *)
Definition open_future (now : datetime) (evt : event) : Prop :=
  closed evt = false /\ now < _end_date evt.

(** The instances of the example. *)
Definition end10 : event := {| slug := "a"; endDate := Some 10; closed := false |}.
Definition end20 : event := {| slug := "b"; endDate := Some 20; closed := false |}.
Definition end5 : event := {| slug := "c"; endDate := Some 5; closed := true |}.

(** The market that [summarize_event] reads: the first entry of
    [markets] when that is a dict, the empty dict when [markets] is
    missing or falsy, and none otherwise. *)
Definition usable_market (event : dict) : option dict :=
  match get_default event "markets" (VList []) with
  | VList (VDict m :: _) => Some m
  | v => if truthy v then None else Some []
  end.

(** The three fields that go through [_as_list]: name in the summary and
    name in the payload. *)
Definition list_fields : list string :=
  ["outcomes"; "outcomePrices"; "clobTokenIds"]%string.

(** The payload value [v] is a list [xs], or a text that [loads] decodes
    to the list [xs]. *)
Definition reads_as_list (loads : string -> result value) (v : value)
    (xs : list value) : Prop :=
  v = VList xs \/ exists s, v = VStr s /\ loads s = Ok (VList xs).

(** The payload value [v] is [None] (also when the key is missing),
    neither a list nor a text, or a text that [loads] rejects. *)
Definition reads_as_empty (loads : string -> result value) (v : value) : Prop :=
  match v with
  | VList _ => False
  | VStr s => exists e, loads s = Raise e
  | VNone | VBool _ | VInt _ | VFloat _ | VDict _ => True
  end.

(** The summary that [summarize_event] builds from the event and its
    market [m]. *)
Definition summary_of (loads : string -> result value) (event m : dict) : dict :=
  [ ("slug", get event "slug");
    ("endDate", get event "endDate");
    ("volume", get event "volume");
    ("volume24hr", get event "volume24hr");
    ("liquidity", or_else (get m "liquidity") (get event "liquidity"));
    ("outcomes", _as_list loads (get m "outcomes"));
    ("outcomePrices", _as_list loads (get m "outcomePrices"));
    ("bestBid", get m "bestBid");
    ("bestAsk", get m "bestAsk");
    ("lastTradePrice", get m "lastTradePrice");
    ("oneDayPriceChange", get m "oneDayPriceChange");
    ("oneHourPriceChange", get m "oneHourPriceChange");
    ("clobTokenIds", _as_list loads (get m "clobTokenIds")) ]%string.

(** Events of the examples: a market whose outcomes are a JSON text, whose
    prices are a list and whose token ids are missing; a [markets] list
    that holds [None]; a market whose outcomes are the JSON text [5]. *)
Definition tidy_event : dict :=
  [ ("slug", VStr "bitcoin-up-or-down-on-january-1");
    ("markets", VList [VDict [ ("outcomes", VStr "[]");
                              ("outcomePrices", VList [VStr "0.4"; VStr "0.6"]);
                              ("liquidity", VInt 0) ]]) ]%string.

Definition null_market_event : dict := [ ("markets", VList [VNone]) ]%string.

Definition scalar_outcomes_event : dict :=
  [ ("markets", VList [VDict [ ("outcomes", VStr "5") ]]) ]%string.

(** A fragment of [json.loads] for the examples: it decodes the texts
    [[]] and [5] as [json.loads] does and takes no other text. *)
Definition loads_fragment (s : string) : result value :=
  if String.eqb s "[]" then Ok (VList [])
  else if String.eqb s "5" then Ok (VInt 5)
  else Raise (ValueError "Expecting value").

End ApiSpec.

Module ResampleSpec.
Import Resample.

(** The rows are in ascending order of time. *)
Definition by_time (df : list obs) : Prop :=
  StronglySorted (fun a b => fst a <= fst b) df.

(** The observations of [l] in the bucket [[g, g + freq)]. *)
Definition in_bucket (g freq : Z) (o : obs) : bool :=
  (g <=? fst o) && (fst o <? g + freq).

Definition bucket (g freq : Z) (l : list obs) : list obs :=
  filter (in_bucket g freq) l.

(** Grid point number [k] of the grid anchored at [origin]. *)
Definition grid (origin freq : Z) (k : nat) : Timestamp :=
  origin + Z.of_nat k * freq.

(** The time of the last row, and the number of grid points from the
    time of the first row up to it. *)
Definition last_ts (df : list obs) : Timestamp := fst (List.last df (0, 0%Q)).

Definition first_ts (df : list obs) : Timestamp :=
  match df with
  | [] => 0
  | (t, _) :: _ => t
  end.

Definition grid_size (freq : Z) (df : list obs) : nat :=
  S (Z.to_nat ((last_ts df - first_ts df) / freq)).

(** The mean of the observations in bucket number [k]: [None] when the
    bucket is empty. *)
Definition bucket_mean (freq : Z) (df : list obs) (k : nat) : option Q :=
  mean (map snd (bucket (grid (first_ts df) freq k) freq df)).

(** The observations in bucket number [k] of the grid anchored at the
    first row. *)
Definition cell (df : list obs) (rule : positive) (k : nat) : list obs :=
  bucket (grid (first_ts df) (Zpos rule) k) (Zpos rule) df.

(** The observations of the example, [(0, 0.4)] and [(3600, 0.6)] with
    times in seconds, and a grid step of 1800 seconds. *)
Definition two_points : list obs :=
  [(to_datetime 0, 4 # 10); (to_datetime 3600, 6 # 10)]%Q.

Definition half_hour : positive := 1800000000000.

(** The rows lie on the grid from [left], one row per grid point. *)
Fixpoint on_grid_from (left freq : Z) (l : list obs) : Prop :=
  match l with
  | [] => True
  | o :: r => fst o = left /\ on_grid_from (left + freq) freq r
  end.

Definition on_grid (freq : Z) (df : list obs) : Prop :=
  on_grid_from (first_ts df) freq df.

(** The output has the times of [df] and, at each, a value equal as a
    rational number to the value of [df]. *)
Definition same_series (out : list (Z * option Q)) (df : list obs) : Prop :=
  Forall2 (fun r o => fst r = fst o /\
                      exists v, snd r = Some v /\ (v == snd o)%Q) out df.

(** A series on the half-hour grid. *)
Definition three_on_grid : list obs :=
  [(to_datetime 0, 4 # 10); (to_datetime 1800, 5 # 10);
   (to_datetime 3600, 6 # 10)]%Q.

(** The hours from [anchor] to [t], as [process_files] computes them. *)
Definition elapsed_hours (anchor t : Z) : Q :=
  (total_seconds (t - anchor) / 3600)%Q.

(** The values of the grid before filling. *)
Definition raw (df : list obs) (rule : positive) : list (option Q) :=
  map (bucket_mean (Zpos rule) df) (seq 0 (grid_size (Zpos rule) df)).

(** The value of an output series at position [k]. *)
Definition value_at (out : series) (k : nat) : option (option Q) :=
  nth_error (map snd out) k.

(** The sum of the values of the rows. *)
Definition total (l : list obs) : Q :=
  fold_right (fun o acc => (snd o + acc)%Q) 0%Q l.

(** [v] is the arithmetic mean of the values of the rows [l]: there is a
    row, and [v] times the number of rows is the sum of the values. *)
Definition mean_of (l : list obs) (v : Q) : Prop :=
  l <> [] /\ (v * inject_Z (Z.of_nat (List.length l)) == total l)%Q.

(** [v] is the value at position [k] of the line that has the value [x]
    at position [i] and the value [y] at position [j]. *)
Definition on_line (i j k : nat) (x y v : Q) : Prop :=
  (v * inject_Z (Z.of_nat (j - i)) ==
   x * inject_Z (Z.of_nat (j - k)) + y * inject_Z (Z.of_nat (k - i)))%Q.

(** Observations (0, 0.25), (600, 0.75) and (7200, 1) with times in
    seconds: two in the first half hour, none in the next three. *)
Definition gapped : list obs :=
  [(to_datetime 0, 1 # 4); (to_datetime 600, 3 # 4); (to_datetime 7200, 1)]%Q.

End ResampleSpec.

Module PlanSpec.
Import Datetime FetchCbHistory BackfillSpec.

(** The number of chunks of a range: the range over the span, rounded
    up. *)
Definition chunk_count (start end_ span : Z) : nat :=
  Z.to_nat ((end_ - start + span - 1) / span).

(** Chunk number [k] of a range: it starts [k] spans after [start] and
    ends one span later, or at [end_] if that comes first. *)
Definition nth_chunk (start end_ span : Z) (k : nat) : chunk :=
  (start + Z.of_nat k * span, Z.min (start + (Z.of_nat k + 1) * span) end_).

Definition plan (start end_ span : Z) : list chunk :=
  map (nth_chunk start end_ span) (seq 0 (chunk_count start end_ span)).

(** The generator raises [e], however much longer it is run. *)
Definition ends_raising (start end_ : datetime) (granularity : Z) (e : exn)
    : Prop :=
  exists fuel, forall fuel', (fuel <= fuel')%nat ->
    daterange_chunks fuel' start end_ granularity = Raised e.

(** An exchange that answers every request with the same candle. *)
Definition constant_exchange (n : nat) (_ _ : datetime) : result (list candle) :=
  Ok [flat 1451606400].

(** An exchange whose second answer holds a candle dated beyond the year
    9999. *)
Definition wild_exchange (n : nat) (_ _ : datetime) : result (list candle) :=
  match n with
  | 1%nat => Ok [flat 1451696400; flat 253402300800]
  | _ => Ok [flat 1451606400]
  end.

End PlanSpec.

Section FirstBest.

Context {A : Type}.
Variable key : A -> Z.

(** The first element of [l], in the order of [l], among those with the
    least key (the greatest with [reverse]). *)
Fixpoint first_best (reverse : bool) (l : list A) : option A :=
  match l with
  | [] => None
  | x :: r =>
      match first_best reverse r with
      | None => Some x
      | Some y => if before key reverse x y then Some x else Some y
      end
  end.

End FirstBest.

Module ResolveSpec.
Import Datetime Api ApiSpec.

(** [open_future] as a test. *)
Definition is_open_future (now : datetime) (evt : event) : bool :=
  negb (closed evt) && (now <? _end_date evt).

(** The choice of the current event in one pass over the events as
    given: the first of the open and future events with the least end, or
    else the first of all events with the greatest end. *)
Definition resolve (events : list event) (now : datetime) : result event :=
  match events with
  | [] => Raise (ValueError NO_EVENTS)
  | _ :: _ =>
      match first_best _end_date false (filter (is_open_future now) events) with
      | Some evt => Ok evt
      | None =>
          match first_best _end_date true events with
          | Some evt => Ok evt
          | None => Raise IndexError
          end
      end
  end.

(** The events that [get_all_btc_daily_events] orders. *)
Definition selected (events : list event) (closed_only : bool) : list event :=
  if closed_only then filter closed events else events.

(** The same events with two of them sharing an end. *)
Definition twin20 : event :=
  {| slug := "d"; endDate := Some 20; closed := false |}.

End ResolveSpec.

Module SeriesSpec.
Import Datetime Api ApiSpec ApiSeries.

(** The summary of an event of which only the slug is known. *)
Definition blank_summary (s : string) : dict :=
  [ ("slug", VStr s);
    ("endDate", VNone);
    ("volume", VNone);
    ("volume24hr", VNone);
    ("liquidity", VNone);
    ("outcomes", VList []);
    ("outcomePrices", VList []);
    ("bestBid", VNone);
    ("bestAsk", VNone);
    ("lastTradePrice", VNone);
    ("oneDayPriceChange", VNone);
    ("oneHourPriceChange", VNone);
    ("clobTokenIds", VList []) ]%string.

(** The value of [event.get("markets", []) or []]. *)
Definition markets_of (event : dict) : value :=
  or_else (get_default event "markets" (VList [])) (VList []).

(** The market [mkt] is a dict whose token ids read as the list [xs]. *)
Definition market_tokens (loads : string -> result value) (mkt : value)
    (xs : list value) : Prop :=
  exists m, mkt = VDict m /\ _as_list loads (get m "clobTokenIds") = VList xs.

(** An events endpoint that knows one slug only, and the text of an
    exception. *)
Definition one_slug_endpoint (n : nat) (s : string) : result value :=
  if String.eqb s "a" then Ok (VDict tidy_event)
  else Raise (RequestException "404 Client Error").

Definition message (e : exn) : string :=
  match e with
  | ValueError msg | RequestException msg => msg
  | _ => ""
  end.

(** An event with two markets, the token ids of the first as JSON text
    and of the second as a list. *)
Definition two_market_event : dict :=
  [ ("markets",
     VList [ VDict [ ("clobTokenIds", VStr "[]") ];
             VDict [ ("clobTokenIds", VList [VStr "71"; VStr "52"]) ] ]) ]%string.

End SeriesSpec.

Module FillSpec.
Import Resample ResampleSpec.

(** A value that is not missing. *)
Definition is_some (v : option Q) : Prop := v <> None.

(** The loaded frames that have a row. *)
Definition nonempty (d : string * list obs) : bool :=
  match snd d with
  | [] => false
  | _ :: _ => true
  end.

(** Three loaded histories, the second without points. *)
Definition three_histories : list (string * list obs) :=
  [("a_1", two_points); ("b_2", []); ("c_3", three_on_grid)]%string.

End FillSpec.

Module RecorderSpec.
Import Api Recorders.

(** The elements of [l] with [sep] between each two. *)
Fixpoint intersperse {A : Type} (sep : A) (l : list A) : list A :=
  match l with
  | [] => []
  | [x] => [x]
  | x :: r => x :: sep :: intersperse sep r
  end.

(** A trades endpoint that fails every second time, and a clock. *)
Definition every_other (i : nat) (token_id : string) : result value :=
  if Nat.even i then Ok (VList [])
  else Raise (RequestException "502 Server Error").

Definition clock (i : nat) : Q := inject_Z (1700000000 + 10 * Z.of_nat i).

End RecorderSpec.

Module HistorySpec.
Import Api Orderbook FetchPricesHistory ApiSpec.

(** A history to fetch: slug, token id, start and end. *)
Abbreviation job := (string * value * Z * Z)%type (only parsing).

Section Jobs.

Variable json_loads : string -> result value.
Variable timestamp_of : value -> option Z.
Variable fetch_event : nat -> string -> result value.
Variable fetch_history :
  nat -> value -> Z -> Z -> string -> option Z -> result value.
Variable a : args.

(** What event request number [n] gives for [slug]: [None] when the slug
    is skipped, else the histories to fetch for it. *)
Definition prepared (n : nat) (slug : string) : result (option (list job)) :=
  event <- fetch_event n slug ;;
  if negb (truthy event) then Ok None else
  parsed <- parse_event json_loads timestamp_of event ;;
  match parsed with
  | None => Ok None
  | Some (token_ids, start_ts, end_ts) =>
      tokens <- iterate token_ids ;;
      Ok (Some (map (fun t => (slug, t, start_ts, end_ts)) tokens))
  end.

(** The slugs from request number [n] on: what each gives. *)
Fixpoint prepared_from (n : nat) (slugs : list string)
    : result (list (option (list job))) :=
  match slugs with
  | [] => Ok []
  | slug :: rest =>
      p <- prepared n slug ;;
      ps <- prepared_from (S n) rest ;;
      Ok (p :: ps)
  end.

(** The histories to fetch, in order, and the number of slugs skipped. *)
Definition jobs_of (ps : list (option (list job))) : list job :=
  List.concat (map (fun p => match p with Some js => js | None => [] end) ps).

Definition skipped_of (ps : list (option (list job))) : nat :=
  List.length (filter (fun p => match p with Some _ => false | None => true end)
                 ps).

(** The files of the jobs whose request, numbered from [n], is answered. *)
Fixpoint answered (n : nat) (js : list job) : list file :=
  match js with
  | [] => []
  | (slug, token_id, start_ts, end_ts) :: rest =>
      match fetch_history n token_id start_ts end_ts (interval a)
              (fidelity_arg a) with
      | Ok hist =>
          (slug, token_id, payload a slug token_id start_ts end_ts hist)
            :: answered (S n) rest
      | Raise _ => answered (S n) rest
      end
  end.

(** Every answer to a history request before number [n0] has a length;
    every answer has. *)
Definition sized_before (n0 : nat) : Prop :=
  forall n token_id start_ts end_ts i f hist,
    (n < n0)%nat ->
    fetch_history n token_id start_ts end_ts i f = Ok hist ->
    exists k, len hist = Ok k.

Definition sized_answers : Prop := forall n0, sized_before n0.

(** The file of a job and the history fetched for it. *)
Definition file_of (j : job) (hist : value) : file :=
  let '(slug, token_id, start_ts, end_ts) := j in
  (slug, token_id, payload a slug token_id start_ts end_ts hist).

(** The answer to request number [n] when it is made for the job [j]. *)
Definition answer (n : nat) (j : job) : result value :=
  let '(_, token_id, start_ts, end_ts) := j in
  fetch_history n token_id start_ts end_ts (interval a) (fidelity_arg a).

End Jobs.

(** An event with a market that has two token ids and dates, a reading of
    the dates of the example, and endpoints: the second event request
    finds nothing, the first history request fails; an endpoint whose
    second answer is [None]. *)
Definition dated_market_event : dict :=
  [ ("markets",
     VList [ VDict [ ("clobTokenIds", VList [VStr "71"; VStr "52"]);
                     ("startDate", VStr "2024-01-01T00:00:00Z");
                     ("endDate", VStr "2024-01-02T00:00:00Z") ] ]) ]%string.

Definition dated_event : value := VDict dated_market_event.

Definition dates (v : value) : option Z :=
  match v with
  | VStr s =>
      if String.eqb s "2024-01-01T00:00:00Z" then Some 1704067200
      else if String.eqb s "2024-01-02T00:00:00Z" then Some 1704153600
      else None
  | _ => None
  end.

Definition events_endpoint (n : nat) (slug : string) : result value :=
  match n with
  | 1%nat => Ok VNone
  | _ => Ok dated_event
  end.

Definition history_endpoint (n : nat) (token_id : value) (s e : Z)
    (i : string) (f : option Z) : result value :=
  match n with
  | O => Raise (RequestException "429 Too Many Requests")
  | _ => Ok (VList [])
  end.

Definition null_history_endpoint (n : nat) (token_id : value) (s e : Z)
    (i : string) (f : option Z) : result value :=
  match n with
  | 1%nat => Ok VNone
  | _ => Ok (VList [])
  end.

Definition default_args : args :=
  {| interval := "1m"; fidelity := 10; sleep := 1 # 10 |}.

End HistorySpec.

Module NewestSpec.
Import Datetime Api ApiSpec ResolveSpec.

(** [events[-1]] of the ordered series: the event that
    [fetch_latest_orderbooks] and the examples take for the newest. *)
Definition newest (events : list event) : option event :=
  match get_all_btc_daily_events events false with
  | [] => None
  | x :: r => Some (List.last r x)
  end.

(** Every open and future event ends last of all events. *)
Definition open_ends_last (events : list event) (now : datetime) : Prop :=
  forall c, In c events -> is_open_future now c = true ->
  forall c', In c' events -> _end_date c' <= _end_date c.

End NewestSpec.

Module BooksSpec.
Import Api Orderbook LatestBooks.

Section Answers.

Variable fetch_orderbook_rest : nat -> value -> result value.
Variable str_exc : exn -> string.

(** What the last of the requests numbered from [n], made for the tokens
    in turn, stored for the key [q]. *)
Fixpoint last_answer (n : nat) (tokens : list value) (q : value)
    : option value :=
  match tokens with
  | [] => None
  | t :: r =>
      match last_answer (S n) r q with
      | Some v => Some v
      | None =>
          if key_eq q t then Some (entry fetch_orderbook_rest str_exc n t)
          else None
      end
  end.

End Answers.

(** A books endpoint that fails on the first request. *)
Definition books_endpoint (n : nat) (token_id : value) : result value :=
  match n with
  | O => Raise (RequestException "404 Client Error")
  | _ => Ok (VDict [("bids", VList []); ("asks", VList [])]%string)
  end.

End BooksSpec.

(* ------------------------------------------------------------------------- *)
(** ** Facts about [sorted]                                                  *)
(* ------------------------------------------------------------------------- *)

Section SortedFacts.

Context {A : Type}.
Variable key : A -> Z.

(** The order that [sorted] establishes. *)
Definition in_order (reverse : bool) (a b : A) : Prop :=
  if reverse then key b <= key a else key a <= key b.

Lemma before_in_order reverse a b :
  before key reverse a b = true <-> in_order reverse a b.
Proof. unfold before, in_order. destruct reverse; apply Z.leb_le. Qed.

Lemma in_order_trans reverse a b c :
  in_order reverse a b -> in_order reverse b c -> in_order reverse a c.
Proof. unfold in_order. destruct reverse; lia. Qed.

Lemma in_order_total reverse a b :
  before key reverse a b = false -> in_order reverse b a.
Proof.
  unfold before, in_order. destruct reverse; intros H; apply Z.leb_gt in H; lia.
Qed.

Lemma insert_perm reverse x l : Permutation (insert key reverse x l) (x :: l).
Proof.
  induction l as [|y l IH]; simpl.
  - reflexivity.
  - destruct (before key reverse x y).
    + reflexivity.
    + rewrite IH. apply perm_swap.
Qed.

Lemma sorted_perm reverse l : Permutation (sorted key reverse l) l.
Proof.
  induction l as [|x l IH]; simpl.
  - reflexivity.
  - rewrite insert_perm. now constructor.
Qed.

Lemma sorted_In reverse l x : In x (sorted key reverse l) <-> In x l.
Proof.
  split; apply Permutation_in; [|symmetry]; apply sorted_perm.
Qed.

Lemma insert_sorted reverse x l :
  StronglySorted (in_order reverse) l ->
  StronglySorted (in_order reverse) (insert key reverse x l).
Proof.
  induction 1 as [|y l Hs IH Hy]; simpl.
  - repeat constructor.
  - destruct (before key reverse x y) eqn:E.
    + apply before_in_order in E.
      constructor; [now constructor|].
      constructor; [exact E|].
      eapply Forall_impl; [|exact Hy].
      intros z Hz. eapply in_order_trans; eauto.
    + apply in_order_total in E.
      constructor; [exact IH|].
      rewrite Forall_forall in *. intros z Hz.
      apply (Permutation_in _ (insert_perm reverse x l)) in Hz.
      destruct Hz as [<-|Hz]; auto.
Qed.

Lemma sorted_sorted reverse l :
  StronglySorted (in_order reverse) (sorted key reverse l).
Proof.
  induction l as [|x l IH]; simpl.
  - constructor.
  - now apply insert_sorted.
Qed.

(** A list already in ascending order is left as it is. *)
Lemma sorted_id l :
  StronglySorted (in_order false) l -> sorted key false l = l.
Proof.
  induction 1 as [|x l Hs IH Hx]; simpl; [reflexivity|].
  rewrite IH. destruct l as [|y l]; [reflexivity|]. cbn [insert].
  inversion Hx as [|? ? Hxy _]; subst.
  apply before_in_order in Hxy. now rewrite Hxy.
Qed.

Lemma sorted_keys_ascending l :
  ascending (map key (sorted key false l)).
Proof.
  pose proof (sorted_sorted false l) as H.
  induction H as [|x s Hs IH Hx]; simpl; constructor; auto.
  rewrite Forall_forall in *. intros k Hk.
  apply in_map_iff in Hk as (y & <- & Hy). now apply Hx.
Qed.

(** The head of the sorted list is least (greatest with [reverse]). *)
Lemma sorted_head reverse l x s :
  sorted key reverse l = x :: s ->
  In x l /\ forall y, In y l -> in_order reverse x y.
Proof.
  intros E. split.
  - apply (sorted_In reverse). rewrite E. now left.
  - intros y Hy. apply (sorted_In reverse) in Hy. rewrite E in Hy.
    pose proof (sorted_sorted reverse l) as H. rewrite E in H.
    inversion H as [|? ? _ Hx]; subst.
    destruct Hy as [<-|Hy].
    + unfold in_order. destruct reverse; lia.
    + rewrite Forall_forall in Hx. auto.
Qed.

End SortedFacts.

(* ------------------------------------------------------------------------- *)
(** ** The chunk planner ([daterange_chunks])                                *)
(* ------------------------------------------------------------------------- *)

Module ChunkFacts.
Import Datetime FetchCbHistory ChunkSpec BackfillSpec.

Lemma datetime_max_eq : datetime_max = 315537897599999999.
Proof. reflexivity. Qed.

Lemma add_ok d td :
  0 <= d + td <= datetime_max -> add d td = Ok (d + td).
Proof.
  intros H. unfold add, in_range, datetime_min.
  destruct (0 <=? d + td) eqn:E1; destruct (d + td <=? datetime_max) eqn:E2;
    simpl; try reflexivity; (apply Z.leb_gt in E1 || apply Z.leb_gt in E2); lia.
Qed.

Lemma drain_more_fuel n : forall m span end_ cur l,
  drain n span end_ cur = Returned l -> (n <= m)%nat ->
  drain m span end_ cur = Returned l.
Proof.
  induction n as [|n IH]; intros m span end_ cur l H Hm; [discriminate|].
  destruct m as [|m]; [lia|]. simpl in *.
  destruct (daterange_chunks_next span end_ cur) as [c cur'| |e];
    try congruence.
  destruct (drain n span end_ cur') as [l'| |] eqn:E; try discriminate.
  rewrite (IH m _ _ _ _ E); [exact H | lia].
Qed.

(** With a positive span the loop ends, and its intervals lead from
    [cur] to [end_]. *)
Lemma drain_tiling n : forall span end_ cur,
  0 < span -> 0 <= cur -> cur <= end_ -> end_ + span <= datetime_max ->
  (Z.to_nat (end_ - cur) <= n)%nat ->
  exists l, drain (S n) span end_ cur = Returned l /\ tiling span cur end_ l.
Proof.
  induction n as [|n IH]; intros span end_ cur Hs H0 Hle Hmax Hn.
  - assert (cur = end_) as -> by lia.
    exists []. simpl. unfold daterange_chunks_next. rewrite Z.ltb_irrefl.
    split; [reflexivity | constructor].
  - destruct (Z.eq_dec cur end_) as [->|Hne].
    + exists []. simpl. unfold daterange_chunks_next. rewrite Z.ltb_irrefl.
      split; [reflexivity | constructor].
    + assert (cur < end_) as Hlt by lia.
      destruct (IH span end_ (Z.min (cur + span) end_)) as (l & Hl & Ht);
        try lia.
      exists ((cur, Z.min (cur + span) end_) :: l). split.
      * change (drain (S (S n)) span end_ cur) with
          (match daterange_chunks_next span end_ cur with
           | StopIteration => Returned []
           | Throw e => Raised e
           | Yield c cur' =>
               match drain (S n) span end_ cur' with
               | Returned l => Returned (c :: l)
               | Raised e => Raised e
               | OutOfFuel => OutOfFuel
               end
           end).
        unfold daterange_chunks_next.
        apply Z.ltb_lt in Hlt. rewrite Hlt.
        rewrite add_ok by lia. cbv zeta. now rewrite Hl.
      * constructor; [lia | lia | exact Ht].
Qed.

Lemma tiling_chained span a c l : tiling span a c l -> chained l.
Proof.
  induction 1 as [|a b c l Hab Hw Ht IH]; simpl; [exact I|].
  destruct l as [|[b' c'] l]; [exact I|].
  split; [|exact IH]. inversion Ht; subst. reflexivity.
Qed.

Lemma tiling_widths span a c l :
  tiling span a c l ->
  Forall (fun i => fst i < snd i /\ snd i - fst i <= span) l.
Proof. induction 1; constructor; auto. Qed.

Lemma tiling_first span a c l :
  tiling span a c l -> a < c -> exists i r, l = i :: r /\ fst i = a.
Proof. destruct 1; [lia|]. intros _. eauto. Qed.

Lemma tiling_last span a c l d :
  tiling span a c l -> l <> [] -> snd (last l d) = c.
Proof.
  induction 1 as [|a b c l Hab Hw Ht IH]; intros Hne; [congruence|].
  destruct l as [|i l]; [inversion Ht; reflexivity|].
  change (snd (last (i :: l) d) = c). apply IH. discriminate.
Qed.

Lemma tiling_le span a c l : tiling span a c l -> a <= c.
Proof. induction 1; lia. Qed.

Lemma tiling_cover_before span a c l t :
  tiling span a c l -> t < a -> cover l t = 0%nat.
Proof.
  unfold cover. induction 1 as [|a b c l Hab Hw Ht IH]; intros Hlt;
    [reflexivity|].
  simpl. unfold holds at 1. simpl.
  replace (a <=? t) with false by (symmetry; apply Z.leb_gt; lia).
  simpl. apply IH. lia.
Qed.

(** Every instant of the range lies in exactly one interval. *)
Lemma tiling_cover span a c l t :
  tiling span a c l -> a <= t < c -> cover l t = 1%nat.
Proof.
  induction 1 as [|a b c l Hab Hw Ht IH]; intros Hin; [lia|].
  unfold cover. simpl. unfold holds at 1. simpl.
  replace (a <=? t) with true by (symmetry; apply Z.leb_le; lia).
  destruct (t <? b) eqn:E; simpl.
  - apply Z.ltb_lt in E. f_equal.
    apply (tiling_cover_before span b c l t Ht E).
  - apply Z.ltb_ge in E. apply IH. lia.
Qed.

(** [timedelta(seconds=n)] succeeds when [n // 86400] is in range. *)
Lemma timedelta_of_seconds_ok n :
  - MAX_DELTA_DAYS <= n / 86400 <= MAX_DELTA_DAYS ->
  timedelta_of_seconds n = Ok (n * US_PER_SECOND).
Proof.
  intros H. unfold timedelta_of_seconds. cbv zeta.
  assert (n * US_PER_SECOND / US_PER_DAY = n / 86400) as ->.
  { change US_PER_DAY with (86400 * US_PER_SECOND).
    apply Z.div_mul_cancel_r; discriminate. }
  destruct (Z.leb_spec (- MAX_DELTA_DAYS) (n / 86400));
    destruct (Z.leb_spec (n / 86400) MAX_DELTA_DAYS);
    try reflexivity; lia.
Qed.

Lemma tiling_cover_after span a c l t :
  tiling span a c l -> c <= t -> cover l t = 0%nat.
Proof.
  unfold cover. induction 1 as [|a b c l Hab Hw Ht IH]; intros Hle;
    [reflexivity|].
  simpl. unfold holds at 1. simpl.
  pose proof (tiling_le _ _ _ _ Ht).
  replace (t <? b) with false by (symmetry; apply Z.ltb_ge; lia).
  rewrite andb_false_r. apply IH. lia.
Qed.

Lemma start_ok granularity :
  0 < granularity -> max_width granularity <= datetime_max ->
  daterange_chunks_start granularity = Ok (max_width granularity).
Proof.
  intros Hg Hmax. unfold daterange_chunks_start, max_width in *.
  apply timedelta_of_seconds_ok.
  rewrite datetime_max_eq in Hmax. unfold US_PER_SECOND in Hmax.
  assert (0 <= granularity * 300 / 86400 < 3652059) as H.
  { split.
    - apply Z.div_pos; lia.
    - apply Z.div_lt_upper_bound; lia. }
  unfold MAX_DELTA_DAYS. lia.
Qed.

(** With [granularity = 0] the loop yields the empty interval at [start]
    again and again. *)
Lemma drain_zero_span fuel : forall end_ cur,
  0 <= cur < end_ -> end_ <= datetime_max ->
  drain fuel 0 end_ cur = OutOfFuel.
Proof.
  induction fuel as [|fuel IH]; intros end_ cur Hc Hmax; [reflexivity|].
  simpl. unfold daterange_chunks_next.
  replace (cur <? end_) with true by (symmetry; apply Z.ltb_lt; lia).
  rewrite add_ok by lia. cbv zeta.
  replace (Z.min (cur + 0) end_) with cur by lia.
  now rewrite IH.
Qed.

(** C1 (as amended).  For [start < end], a positive [granularity] and
    an [end] at least one span before [datetime.max], the planner returns
    a sequence of intervals that tiles [start, end) exactly once: the
    first interval starts at [start], the last ends at [end], each
    interval ends where the next starts, each is non-empty and at most
    [granularity * 300] seconds wide, and every instant of the range
    lies in exactly one interval and no instant outside it in any. *)
Theorem daterange_chunks_tiles start end_ granularity :
  0 <= start -> start < end_ -> 0 < granularity ->
  end_ + max_width granularity <= datetime_max ->
  exists fuel l,
    (forall fuel', (fuel <= fuel')%nat ->
       daterange_chunks fuel' start end_ granularity = Returned l) /\
    (exists i r, l = i :: r /\ fst i = start) /\
    snd (last l (start, start)) = end_ /\
    chained l /\
    Forall (fun i => fst i < snd i /\ snd i - fst i <= max_width granularity) l /\
    (forall t, start <= t < end_ -> cover l t = 1%nat) /\
    (forall t, t < start \/ end_ <= t -> cover l t = 0%nat).
Proof.
  intros H0 Hlt Hg Hmax.
  assert (0 < max_width granularity) as Hpos
    by (unfold max_width, US_PER_SECOND; lia).
  destruct (drain_tiling (Z.to_nat (end_ - start)) (max_width granularity)
              end_ start) as (l & Hl & Ht); try lia.
  exists (S (Z.to_nat (end_ - start))), l.
  destruct (tiling_first _ _ _ _ Ht Hlt) as (i & r & -> & Hi).
  repeat split.
  - intros fuel' Hf. unfold daterange_chunks.
    rewrite start_ok by lia.
    now apply (drain_more_fuel _ _ _ _ _ _ Hl).
  - eauto.
  - apply (tiling_last _ _ _ _ _ Ht). discriminate.
  - apply (tiling_chained _ _ _ _ Ht).
  - apply (tiling_widths _ _ _ _ Ht).
  - intros t Hin. apply (tiling_cover _ _ _ _ _ Ht Hin).
  - intros t [Hb|Ha].
    + apply (tiling_cover_before _ _ _ _ _ Ht Hb).
    + apply (tiling_cover_after _ _ _ _ _ Ht Ha).
Qed.

(** A 26-hour range from 2016-01-01 with five-minute candles. *)
Lemma daterange_chunks_tiles_witness :
  exists fuel l,
    (forall fuel', (fuel <= fuel')%nat ->
       daterange_chunks fuel' jan1 jan2_2am 300
       = Returned l) /\
    (exists i r, l = i :: r /\ fst i = jan1) /\
    snd (last l (jan1, jan1)) = jan2_2am /\
    chained l /\
    Forall (fun i => fst i < snd i /\ snd i - fst i <= max_width 300) l /\
    (forall t, jan1 <= t < jan2_2am -> cover l t = 1%nat) /\
    (forall t, t < jan1 \/ jan2_2am <= t -> cover l t = 0%nat).
Proof.
  apply (daterange_chunks_tiles jan1 jan2_2am 300).
  - discriminate.
  - reflexivity.
  - reflexivity.
  - discriminate.
Defined.

(** C1, as stated, fails: with [granularity = 0] the planner never stops
    (it yields the empty interval at [start] for ever), and with a
    granularity whose 300-fold is no [timedelta] it raises. *)
Lemma daterange_chunks_not_for_every_granularity :
  runs_forever jan1 jan2_2am 0 /\
  daterange_chunks 1 jan1 jan2_2am 1000000000000
  = Raised OverflowError.
Proof.
  split.
  - intros fuel. unfold daterange_chunks.
    change (daterange_chunks_start 0) with (Ok (A := timedelta) 0).
    apply drain_zero_span.
    + split; [discriminate | reflexivity].
    + discriminate.
  - reflexivity.
Qed.

(** C6 (as amended).  For [start >= end] the planner raises no range
    error: it returns the empty sequence, whenever [granularity * 300]
    seconds are a [timedelta]. *)
Theorem daterange_chunks_empty_range fuel start end_ granularity :
  end_ <= start ->
  - MAX_DELTA_DAYS <= granularity * 300 / 86400 <= MAX_DELTA_DAYS ->
  daterange_chunks (S fuel) start end_ granularity = Returned [].
Proof.
  intros Hle Hg. unfold daterange_chunks, daterange_chunks_start.
  rewrite timedelta_of_seconds_ok by exact Hg.
  simpl. unfold daterange_chunks_next.
  replace (start <? end_) with false by (symmetry; apply Z.ltb_ge; lia).
  reflexivity.
Qed.

Lemma daterange_chunks_empty_range_witness :
  daterange_chunks 1 jan2_2am jan1 300 = Returned [].
Proof.
  apply (daterange_chunks_empty_range 0 jan2_2am jan1 300).
  - discriminate.
  - split; discriminate.
Defined.

(** C6, as stated, fails: for [start = end] the planner returns the
    empty sequence instead of failing. *)
Lemma daterange_chunks_no_range_error :
  daterange_chunks 1 jan1 jan1 300 = Returned [].
Proof. reflexivity. Qed.

End ChunkFacts.

(* ------------------------------------------------------------------------- *)
(** ** The backfill ([main])                                                 *)
(* ------------------------------------------------------------------------- *)

Module BackfillFacts.
Import Datetime FetchCbHistory BackfillSpec.

Lemma row_of_valid c : valid_time c -> row_of c = Ok (to_row c).
Proof.
  unfold valid_time, row_of, fromtimestamp, row_time, to_row.
  cbv zeta. intros ->. reflexivity.
Qed.

Lemma rows_of_valid cs :
  Forall valid_time cs -> rows_of cs = Ok (map to_row cs).
Proof.
  induction 1 as [|c cs Hc _ IH]; simpl; [reflexivity|].
  now rewrite (row_of_valid c Hc), IH.
Qed.

Lemma sorted_valid cs :
  Forall valid_time cs -> Forall valid_time (sorted c_time false cs).
Proof.
  rewrite !Forall_forall. intros H c Hc. apply H.
  exact (proj1 (sorted_In c_time false cs c) Hc).
Qed.

Lemma written_cons r rs : written (r :: rs) = rows_for r ++ written rs.
Proof. reflexivity. Qed.

Section Run.

Variable fetch_cb_candles : nat -> datetime -> datetime -> result (list candle).

(** One pass of the loop body over a chunk that is answered. *)
Lemma main_body_ok st c r :
  fetch_cb_candles (List.length (requested st)) (fst c) (snd c) = Ok r ->
  Forall valid_time r ->
  main_body fetch_cb_candles st c =
    ({| file := file st ++ rows_for r;
        requested := requested st ++ [c];
        total_chunks := S (total_chunks st) |}, Ok tt).
Proof.
  intros Hf Hv. unfold main_body. destruct c as [cs ce]. simpl in Hf.
  rewrite Hf. rewrite (rows_of_valid _ (sorted_valid _ Hv)). reflexivity.
Qed.

Lemma main_body_failed st c e :
  fetch_cb_candles (List.length (requested st)) (fst c) (snd c) = Raise e ->
  main_body fetch_cb_candles st c =
    ({| file := file st; requested := requested st ++ [c];
        total_chunks := total_chunks st |}, Raise e).
Proof.
  intros Hf. unfold main_body. destruct c as [cs ce]. simpl in Hf.
  now rewrite Hf.
Qed.

(** The loop over chunks that are all answered. *)
Lemma main_loop_ok fuel : forall span end_ cur l st rs,
  drain fuel span end_ cur = Returned l ->
  answers fetch_cb_candles (List.length (requested st)) l rs ->
  Forall (Forall valid_time) rs ->
  main_loop fetch_cb_candles fuel span end_ cur st =
    ({| file := file st ++ written rs;
        requested := requested st ++ l;
        total_chunks := total_chunks st + List.length l |},
     Returned (total_chunks st + List.length l)%nat).
Proof.
  induction fuel as [|fuel IH]; intros span end_ cur l st rs Hd Ha Hv;
    [discriminate|].
  simpl in *.
  destruct (daterange_chunks_next span end_ cur) as [c cur'| |e].
  - destruct (drain fuel span end_ cur') as [l'| |] eqn:E; try discriminate.
    injection Hd as <-.
    destruct rs as [|r rs]; [contradiction|]. destruct Ha as [Hf Ha].
    inversion Hv as [|? ? Hr Hrs]; subst.
    rewrite (main_body_ok st c r Hf Hr).
    erewrite IH; [| exact E | | exact Hrs].
    + simpl. rewrite written_cons, <- !app_assoc. simpl.
      rewrite Nat.add_succ_r. reflexivity.
    + simpl. rewrite length_app, Nat.add_comm. exact Ha.
  - injection Hd as <-. destruct rs; [|contradiction].
    destruct st as [f rq t]. simpl.
    unfold written. simpl. rewrite !app_nil_r, Nat.add_0_r. reflexivity.
  - discriminate.
Qed.

(** The loop when the fetch for [c] fails after the chunks [pre]. *)
Lemma main_loop_failed fuel : forall span end_ cur pre c post st rs e,
  drain fuel span end_ cur = Returned (pre ++ c :: post) ->
  answers fetch_cb_candles (List.length (requested st)) pre rs ->
  Forall (Forall valid_time) rs ->
  fetch_cb_candles (List.length (requested st) + List.length pre)
    (fst c) (snd c) = Raise e ->
  main_loop fetch_cb_candles fuel span end_ cur st =
    ({| file := file st ++ written rs;
        requested := requested st ++ pre ++ [c];
        total_chunks := total_chunks st + List.length pre |}, Raised e).
Proof.
  induction fuel as [|fuel IH]; intros span end_ cur pre c post st rs e
    Hd Ha Hv Hf; [discriminate|].
  simpl in *.
  destruct (daterange_chunks_next span end_ cur) as [c0 cur'| |e0].
  - destruct (drain fuel span end_ cur') as [l'| |] eqn:E; try discriminate.
    injection Hd as Hd.
    destruct pre as [|p pre]; simpl in *.
    + injection Hd as -> ->. destruct rs; [|contradiction].
      rewrite Nat.add_0_r in Hf.
      rewrite (main_body_failed st c e Hf).
      destruct st as [f rq t]. simpl. unfold written. simpl.
      rewrite app_nil_r, Nat.add_0_r. reflexivity.
    + injection Hd as -> ->.
      destruct rs as [|r rs]; [contradiction|]. destruct Ha as [Hp Ha].
      inversion Hv as [|? ? Hr Hrs]; subst.
      rewrite (main_body_ok st p r Hp Hr).
      erewrite IH; [| exact E | | exact Hrs | ].
      * simpl. rewrite written_cons, <- !app_assoc. simpl.
        rewrite Nat.add_succ_r. reflexivity.
      * simpl. rewrite length_app, Nat.add_comm. exact Ha.
      * simpl. rewrite length_app. simpl.
        rewrite <- Hf. f_equal. lia.
  - destruct pre; discriminate.
  - discriminate.
Qed.

End Run.

Lemma ascending_nodup_strict l :
  ascending l -> NoDup l -> strictly_ascending l.
Proof.
  induction 1 as [|x l Hs IH Hx]; intros Hn; constructor;
    inversion Hn as [|? ? Hnot Hn']; subst.
  - now apply IH.
  - rewrite Forall_forall in *. intros y Hy.
    specialize (Hx y Hy). assert (x <> y) by (intros ->; contradiction). lia.
Qed.

Lemma strictly_ascending_app l1 l2 :
  strictly_ascending l1 -> strictly_ascending l2 ->
  (forall a b, In a l1 -> In b l2 -> a < b) ->
  strictly_ascending (l1 ++ l2).
Proof.
  induction 1 as [|x l1 Hs IH Hx]; intros H2 Hlt; simpl; [exact H2|].
  constructor.
  - apply IH; [exact H2|]. intros a b Ha Hb. apply Hlt; [now right|exact Hb].
  - apply Forall_app. split; [exact Hx|].
    rewrite Forall_forall. intros b Hb. apply Hlt; [now left|exact Hb].
Qed.

Lemma row_time_lt a b : c_time a < c_time b <-> row_time a < row_time b.
Proof. unfold row_time, EPOCH_DAYS, US_PER_SECOND. lia. Qed.

Lemma row_time_le a b : c_time a <= c_time b <-> row_time a <= row_time b.
Proof. unfold row_time, EPOCH_DAYS, US_PER_SECOND. lia. Qed.

Lemma timestamps_rows_for r :
  map timestamp (rows_for r) = map row_time (sorted c_time false r).
Proof. unfold rows_for. rewrite map_map. reflexivity. Qed.

(** The rows appended for a response are in ascending order. *)
Lemma rows_for_ascending r : ascending (map timestamp (rows_for r)).
Proof.
  rewrite timestamps_rows_for.
  pose proof (sorted_sorted c_time false r) as H.
  induction H as [|x s Hs IH Hx]; simpl; constructor; [exact IH|].
  rewrite Forall_forall in *. intros t Ht.
  apply in_map_iff in Ht as (y & <- & Hy).
  apply row_time_le. exact (Hx y Hy).
Qed.

Lemma rows_for_perm r : Permutation (rows_for r) (map to_row r).
Proof. unfold rows_for. apply Permutation_map, sorted_perm. Qed.

Lemma row_time_nodup r :
  NoDup (map c_time r) -> NoDup (map row_time r).
Proof.
  induction r as [|c r IH]; simpl; intros Hn; [constructor|].
  inversion Hn as [|? ? Hnot Hn']; subst. constructor; [|now apply IH].
  intros Hin. apply Hnot.
  apply in_map_iff in Hin as (y & Hy & Hin).
  apply in_map_iff. exists y. split; [|exact Hin].
  unfold row_time, EPOCH_DAYS, US_PER_SECOND in Hy. lia.
Qed.

Lemma rows_for_strict r :
  NoDup (map c_time r) -> strictly_ascending (map timestamp (rows_for r)).
Proof.
  intros Hn. apply ascending_nodup_strict; [apply rows_for_ascending|].
  rewrite timestamps_rows_for.
  apply (Permutation_NoDup (l := map row_time r)).
  - symmetry. apply Permutation_map, sorted_perm.
  - now apply row_time_nodup.
Qed.

Lemma In_timestamps_rows_for r t :
  In t (map timestamp (rows_for r)) -> exists c, In c r /\ t = row_time c.
Proof.
  rewrite timestamps_rows_for. intros Ht.
  apply in_map_iff in Ht as (c & <- & Hc).
  exists c. split; [|reflexivity].
  exact (proj1 (sorted_In c_time false r c) Hc).
Qed.

Lemma In_timestamps_written rs t :
  In t (map timestamp (written rs)) ->
  exists c, In c (List.concat rs) /\ t = row_time c.
Proof.
  induction rs as [|r rs IH]; simpl; [contradiction|].
  rewrite written_cons, map_app, in_app_iff. intros [Ht|Ht].
  - destruct (In_timestamps_rows_for r t Ht) as (c & Hc & ->).
    exists c. split; [|reflexivity]. apply in_app_iff. now left.
  - destruct (IH Ht) as (c & Hc & ->).
    exists c. split; [|reflexivity]. apply in_app_iff. now right.
Qed.

(** Responses that do not overlap are written in strictly ascending
    order. *)
Lemma written_strict rs :
  separated rs -> strictly_ascending (map timestamp (written rs)).
Proof.
  induction rs as [|r rs IH]; simpl; [constructor|].
  intros (Hn & Hlt & Hs). rewrite written_cons, map_app.
  apply strictly_ascending_app.
  - now apply rows_for_strict.
  - now apply IH.
  - intros a b Ha Hb.
    destruct (In_timestamps_rows_for r a Ha) as (ca & Hca & ->).
    destruct (In_timestamps_written rs b Hb) as (cb & Hcb & ->).
    apply row_time_lt. now apply Hlt.
Qed.

(** C2 (as amended).  When every fetch of a run succeeds, the rows that
    the run appends to the output are the responses in chunk order, each
    response sorted by timestamp before it is appended, with no row
    removed: each chunk's rows are ascending, also when the response
    arrived newest first, and the whole is strictly ascending and free of
    duplicate timestamps when no timestamp occurs twice in a response and
    the responses of earlier chunks lie before those of later chunks. *)
Theorem main_appends_sorted_responses
    (fetch : nat -> datetime -> datetime -> result (list candle))
    fuel start end_ granularity existing l rs :
  daterange_chunks fuel start end_ granularity = Returned l ->
  answers fetch 0 l rs ->
  Forall (Forall valid_time) rs ->
  main fetch fuel start end_ granularity existing =
    ({| file := existing ++ written rs; requested := l;
        total_chunks := List.length l |}, Returned (List.length l)) /\
  Forall (fun r => ascending (map timestamp (rows_for r)) /\
                   Permutation (rows_for r) (map to_row r)) rs /\
  (separated rs -> strictly_ascending (map timestamp (written rs))).
Proof.
  intros Hd Ha Hv. repeat split.
  - unfold main, daterange_chunks in *.
    destruct (daterange_chunks_start granularity) as [span|e]; [|discriminate].
    now rewrite (main_loop_ok fetch fuel span end_ start l
                   (Run existing [] 0) rs Hd Ha Hv).
  - rewrite Forall_forall. intros r _. split.
    + apply rows_for_ascending.
    + apply rows_for_perm.
  - apply written_strict.
Qed.

Lemma main_appends_sorted_responses_witness :
  main steady_exchange 3 jan1 jan2_2am 300 [] =
    ({| file := written [[flat 1451606700; flat 1451606400];
                         [flat 1451696700; flat 1451696400]];
        requested := [(jan1, 63587293200000000);
                      (63587293200000000, jan2_2am)];
        total_chunks := 2 |}, Returned 2%nat) /\
  Forall (fun r => ascending (map timestamp (rows_for r)) /\
                   Permutation (rows_for r) (map to_row r))
    [[flat 1451606700; flat 1451606400];
     [flat 1451696700; flat 1451696400]] /\
  (separated [[flat 1451606700; flat 1451606400];
              [flat 1451696700; flat 1451696400]] ->
   strictly_ascending
     (map timestamp (written [[flat 1451606700; flat 1451606400];
                              [flat 1451696700; flat 1451696400]]))).
Proof.
  apply (main_appends_sorted_responses steady_exchange 3 jan1 jan2_2am 300 []
           [(jan1, 63587293200000000); (63587293200000000, jan2_2am)]).
  - reflexivity.
  - simpl. repeat split; reflexivity.
  - repeat constructor; reflexivity.
Defined.

(** C2, as stated, fails: when two adjacent chunks both return the candle
    at their common boundary, both copies are written. *)
Lemma main_keeps_boundary_duplicates :
  map timestamp (file (fst (main boundary_exchange 3 jan1 jan2_2am 300 []))) =
    [63587292900000000; 63587293200000000;
     63587293200000000; 63587293500000000].
Proof. reflexivity. Qed.

(** C5 (as amended).  When the fetch for a chunk fails after the chunks
    before it were fetched, the run ends there with the failure: the rows
    of the chunks before it stay in the output, the failing chunk is the
    last one requested, and nothing is recorded about the failure. *)
Theorem main_stops_at_failed_fetch
    (fetch : nat -> datetime -> datetime -> result (list candle))
    fuel start end_ granularity existing pre c post rs e :
  daterange_chunks fuel start end_ granularity = Returned (pre ++ c :: post) ->
  answers fetch 0 pre rs ->
  Forall (Forall valid_time) rs ->
  fetch (List.length pre) (fst c) (snd c) = Raise e ->
  main fetch fuel start end_ granularity existing =
    ({| file := existing ++ written rs; requested := pre ++ [c];
        total_chunks := List.length pre |}, Raised e).
Proof.
  intros Hd Ha Hv Hf. unfold main, daterange_chunks in *.
  destruct (daterange_chunks_start granularity) as [span|e0]; [|discriminate].
  now rewrite (main_loop_failed fetch fuel span end_ start pre c post
                 (Run existing [] 0) rs e Hd Ha Hv Hf).
Qed.

Lemma main_stops_at_failed_fetch_witness :
  main flaky_exchange 3 jan1 jan2_2am 300 [] =
    ({| file := written [[flat 1451606400]];
        requested := [(jan1, 63587293200000000)] ++
                     [(63587293200000000, jan2_2am)];
        total_chunks := 1 |}, Raised (RequestException "503 Server Error")).
Proof.
  apply (main_stops_at_failed_fetch flaky_exchange 3 jan1 jan2_2am 300 []
           [(jan1, 63587293200000000)] (63587293200000000, jan2_2am) []
           [[flat 1451606400]]).
  - reflexivity.
  - simpl. repeat split; reflexivity.
  - repeat constructor; reflexivity.
  - reflexivity.
Defined.

(** C5, as stated, fails: over 60 hours (three chunks) the failure of the
    second fetch ends the run; the third chunk, which the exchange would
    have answered, is never requested and none of its rows is written. *)
Lemma main_aborts_on_one_failure :
  snd (main flaky_exchange 4 jan1 jan3_noon 300 []) =
    Raised (RequestException "503 Server Error") /\
  requested (fst (main flaky_exchange 4 jan1 jan3_noon 300 [])) =
    [(jan1, 63587293200000000); (63587293200000000, 63587383200000000)] /\
  map timestamp (file (fst (main flaky_exchange 4 jan1 jan3_noon 300 []))) =
    [63587203200000000] /\
  flaky_exchange 2 63587383200000000 jan3_noon = Ok [flat 1451786400].
Proof. repeat split. Qed.

End BackfillFacts.

(* ------------------------------------------------------------------------- *)
(** ** The resolver ([get_latest_btc_daily_event])                           *)
(* ------------------------------------------------------------------------- *)

Module ResolverFacts.
Import Datetime Api ApiSpec.

Lemma sorted_nonempty {A : Type} (key : A -> Z) reverse (l : list A) :
  l <> [] -> sorted key reverse l <> [].
Proof.
  intros Hne E. apply Hne.
  apply Permutation_nil. rewrite <- E. apply sorted_perm.
Qed.

Lemma first_sorted {A : Type} (key : A -> Z) reverse (l : list A) :
  l <> [] ->
  exists x, first (sorted key reverse l) = Ok x /\ In x l /\
            forall y, In y l -> in_order key reverse x y.
Proof.
  intros Hne. destruct (sorted key reverse l) as [|x s] eqn:E.
  - now apply (sorted_nonempty key reverse) in Hne.
  - exists x. split; [reflexivity|]. exact (sorted_head key reverse l x s E).
Qed.

Lemma candidate_iff now events evt :
  In evt (filter (fun evt => negb (closed evt) && (now <? _end_date evt))
            (get_all_btc_daily_events events false)) <->
  In evt events /\ open_future now evt.
Proof.
  unfold get_all_btc_daily_events, open_future.
  rewrite filter_In, (sorted_In _end_date false), andb_true_iff,
    negb_true_iff, Z.ltb_lt.
  reflexivity.
Qed.

(** On a non-empty collection the resolver returns. *)
Lemma get_latest_returns events now :
  events <> [] -> exists evt, get_latest_btc_daily_event events now = Ok evt.
Proof.
  intros Hne. unfold get_latest_btc_daily_event.
  assert (get_all_btc_daily_events events false <> []) as Hbase
    by (apply (sorted_nonempty _end_date false); exact Hne).
  destruct (get_all_btc_daily_events events false) as [|b0 base'] eqn:Eb;
    [congruence|].
  destruct (filter _ (b0 :: base')) as [|c0 cs] eqn:Ec.
  - destruct (first_sorted _end_date true (b0 :: base') Hbase) as (x & Hx & _).
    eauto.
  - destruct (first_sorted _end_date false (c0 :: cs)) as (x & Hx & _);
      [discriminate | eauto].
Qed.

(** C3.  For a non-empty collection of instances the resolver returns one
    of them: when some instance is not closed and ends after [now], the
    one with the smallest end among these; otherwise the one with the
    largest end among all.  On the instances with ends 10, 20 (open) and 5
    (closed) it returns the one ending at 10 for [now = 1] and the one
    ending at 20 for [now = 25]. *)
Theorem get_latest_picks_current :
  (forall events now, events <> [] ->
     exists evt,
       get_latest_btc_daily_event events now = Ok evt /\ In evt events /\
       ((exists c, In c events /\ open_future now c) ->
        open_future now evt /\
        forall c, In c events -> open_future now c ->
                  _end_date evt <= _end_date c) /\
       ((forall c, In c events -> ~ open_future now c) ->
        forall c, In c events -> _end_date c <= _end_date evt)) /\
  get_latest_btc_daily_event [end10; end20; end5] 1 = Ok end10 /\
  get_latest_btc_daily_event [end10; end20; end5] 25 = Ok end20.
Proof.
  split; [|split; reflexivity].
  intros events now Hne.
  unfold get_latest_btc_daily_event.
  pose proof (candidate_iff now events) as Hc.
  set (base := get_all_btc_daily_events events false) in *.
  assert (forall x, In x base <-> In x events) as Hb
    by (intros x; apply (sorted_In _end_date false)).
  assert (base <> []) as Hbase
    by (apply (sorted_nonempty _end_date false); exact Hne).
  destruct base as [|b0 base'] eqn:Eb; [congruence|].
  rewrite <- Eb in *. clear Eb b0 base'.
  set (candidates :=
         filter (fun evt => negb (closed evt) && (now <? _end_date evt)) base)
    in *.
  destruct candidates as [|c0 cs] eqn:Ec.
  - destruct (first_sorted _end_date true base Hbase) as (x & Hx & Hin & Hmax).
    exists x. split; [exact Hx|]. split; [now apply Hb|]. split.
    + intros (c & Hcin & Hopen). exfalso.
      exact (proj2 (Hc c) (conj Hcin Hopen)).
    + intros _ c Hcin. apply (Hmax c). now apply Hb.
  - assert (candidates <> []) as Hcand by (rewrite Ec; discriminate).
    rewrite <- Ec in *. clear Ec c0 cs.
    destruct (first_sorted _end_date false candidates Hcand)
      as (x & Hx & Hin & Hmin).
    exists x. split; [exact Hx|].
    apply Hc in Hin as [Hin Hopen]. split; [exact Hin|]. split.
    + intros _. split; [exact Hopen|].
      intros c Hcin Hcopen. apply (Hmin c). apply Hc. now split.
    + intros Hnone. exfalso. exact (Hnone x Hin Hopen).
Qed.

Lemma get_latest_picks_current_witness :
  exists evt,
    get_latest_btc_daily_event [end5; end20; end10] 7 = Ok evt /\
    In evt [end5; end20; end10] /\
    ((exists c, In c [end5; end20; end10] /\ open_future 7 c) ->
     open_future 7 evt /\
     forall c, In c [end5; end20; end10] -> open_future 7 c ->
               _end_date evt <= _end_date c) /\
    ((forall c, In c [end5; end20; end10] -> ~ open_future 7 c) ->
     forall c, In c [end5; end20; end10] -> _end_date c <= _end_date evt).
Proof.
  apply (proj1 get_latest_picks_current [end5; end20; end10] 7).
  discriminate.
Defined.

(** C7.  On an empty collection of instances the resolver raises
    [ValueError("No events found ...")] instead of returning an instance,
    and it raises that error on no other collection. *)
Theorem get_latest_no_events events now :
  events = [] <->
  get_latest_btc_daily_event events now = Raise (ValueError NO_EVENTS).
Proof.
  split.
  - intros ->. reflexivity.
  - intros Hr. destruct events as [|e events]; [reflexivity|].
    destruct (get_latest_returns (e :: events) now) as (evt & Hok);
      [discriminate|].
    rewrite Hok in Hr. discriminate.
Qed.

End ResolverFacts.

(* ------------------------------------------------------------------------- *)
(** ** [summarize_event]                                                     *)
(* ------------------------------------------------------------------------- *)

Module SummarizeFacts.
Import Api ApiSpec.

Section Loads.

Variable json_loads : string -> result value.

Lemma _as_list_empty v :
  reads_as_empty json_loads v -> _as_list json_loads v = VList [].
Proof.
  destruct v; simpl; try reflexivity; [|contradiction].
  intros (e & ->). reflexivity.
Qed.

Lemma _as_list_list v xs :
  reads_as_list json_loads v xs -> _as_list json_loads v = VList xs.
Proof.
  intros [->|(s & -> & H)]; simpl; [reflexivity|]. now rewrite H.
Qed.

(** With a usable market the summary is built. *)
Lemma summarize_event_usable event m :
  usable_market event = Some m ->
  summarize_event json_loads event = Ok (VDict (summary_of json_loads event m)).
Proof.
  unfold usable_market, summarize_event, or_else.
  destruct (get_default event "markets" (VList [])) as [|b|n|x|s|xs|kvs] eqn:E;
    simpl.
  - intros [= <-]. reflexivity.
  - destruct b; simpl; [discriminate|]. intros [= <-]. reflexivity.
  - destruct (n =? 0); simpl; [|discriminate]. intros [= <-]. reflexivity.
  - destruct (Qeq_bool x 0); simpl; [|discriminate]. intros [= <-]. reflexivity.
  - destruct (String.eqb s ""); simpl; [|discriminate]. intros [= <-]. reflexivity.
  - destruct xs as [|[| | | | | |m'] xs]; simpl; try discriminate;
      intros [= <-]; reflexivity.
  - destruct kvs; simpl; [|discriminate]. intros [= <-]. reflexivity.
Qed.

(** Without one the call raises. *)
Lemma summarize_event_unusable event :
  usable_market event = None ->
  exists e, summarize_event json_loads event = Raise e.
Proof.
  unfold usable_market, summarize_event, or_else.
  destruct (get_default event "markets" (VList [])) as [|b|n|x|s|xs|kvs] eqn:E;
    simpl.
  - discriminate.
  - destruct b; simpl; [|discriminate]. eauto.
  - destruct (n =? 0) eqn:En; simpl; [discriminate|].
    rewrite En. simpl. eauto.
  - destruct (Qeq_bool x 0) eqn:Ex; simpl; [discriminate|].
    rewrite Ex. simpl. eauto.
  - destruct (String.eqb s "") eqn:Es; simpl; [discriminate|].
    rewrite Es. destruct s; [discriminate|]. simpl. eauto.
  - destruct xs as [|[| | | | | |m'] xs]; simpl; try discriminate; eauto.
  - destruct kvs; simpl; [discriminate|]. eauto.
Qed.

End Loads.

(** C10 (as amended).  For an event whose [markets] entry is missing or
    falsy, or is a list whose first element is a dict, [summarize_event]
    returns a summary record; in it each of [outcomes], [outcomePrices] and
    [clobTokenIds] is the empty list when the payload field is missing,
    [None], neither a list nor a text, or a text that is not JSON, and is
    the list itself when the field is a list or the JSON text of a list.
    For any other [markets] entry the call raises. *)
Theorem summarize_event_fields (json_loads : string -> result value) event :
  (forall m, usable_market event = Some m ->
     exists summary,
       summarize_event json_loads event = Ok (VDict summary) /\
       forall f, In f list_fields ->
         (reads_as_empty json_loads (get m f) -> get summary f = VList []) /\
         (forall xs, reads_as_list json_loads (get m f) xs ->
                     get summary f = VList xs)) /\
  (usable_market event = None ->
     exists e, summarize_event json_loads event = Raise e).
Proof.
  split; [|apply summarize_event_unusable].
  intros m Hm. exists (summary_of json_loads event m).
  split; [now apply summarize_event_usable|].
  intros f Hf.
  destruct Hf as [<-|[<-|[<-|[]]]];
    (split;
     [ intros H; exact (_as_list_empty json_loads _ H)
     | intros xs H; exact (_as_list_list json_loads _ xs H) ]).
Qed.

Lemma summarize_event_fields_witness :
  exists summary,
    summarize_event loads_fragment tidy_event = Ok (VDict summary) /\
    forall f, In f list_fields ->
      let v := get [ ("outcomes", VStr "[]");
                     ("outcomePrices", VList [VStr "0.4"; VStr "0.6"]);
                     ("liquidity", VInt 0) ]%string f in
      (reads_as_empty loads_fragment v -> get summary f = VList []) /\
      (forall xs, reads_as_list loads_fragment v xs -> get summary f = VList xs).
Proof.
  apply (proj1 (summarize_event_fields loads_fragment tidy_event)).
  reflexivity.
Defined.

(** C10, as stated, fails: an event whose [markets] list holds [None]
    makes [summarize_event] raise, and a market whose [outcomes] is the
    JSON text [5] gives the number 5 as the [outcomes] field. *)
Lemma summarize_event_raises_or_keeps_scalar :
  summarize_event loads_fragment null_market_event = Raise AttributeError /\
  (summary <- summarize_event loads_fragment scalar_outcomes_event ;;
   getattr_get summary "outcomes") = Ok (VInt 5).
Proof. split; reflexivity. Qed.

End SummarizeFacts.

(* ------------------------------------------------------------------------- *)
(** ** The resampler ([resample_df])                                         *)
(* ------------------------------------------------------------------------- *)

Module ResampleFacts.
Import Resample ResampleSpec.

(** *** Lists *)

Lemma filter_all {A : Type} (p : A -> bool) l :
  Forall (fun x => p x = true) l -> filter p l = l.
Proof.
  induction 1 as [|x l Hx _ IH]; simpl; [reflexivity|]. now rewrite Hx, IH.
Qed.

Lemma filter_none {A : Type} (p : A -> bool) l :
  Forall (fun x => p x = false) l -> filter p l = [].
Proof.
  induction 1 as [|x l Hx _ IH]; simpl; [reflexivity|]. now rewrite Hx, IH.
Qed.

Lemma filter_narrow {A : Type} (p q : A -> bool) l :
  (forall x, p x = true -> q x = true) ->
  filter p (filter q l) = filter p l.
Proof.
  intros Hpq. induction l as [|x l IH]; simpl; [reflexivity|].
  destruct (q x) eqn:Eq; simpl.
  - now rewrite IH.
  - destruct (p x) eqn:Ep; [|exact IH].
    apply Hpq in Ep. congruence.
Qed.

Lemma by_time_filter (p : obs -> bool) l : by_time l -> by_time (filter p l).
Proof.
  unfold by_time. induction 1 as [|x l Hs IH Hx]; simpl; [constructor|].
  destruct (p x); [|exact IH]. constructor; [exact IH|].
  rewrite Forall_forall in *. intros y Hy. apply Hx.
  now apply filter_In in Hy.
Qed.

(** *** Bins *)

(** On rows in time order, the split at an edge is the rows before the
    edge and the rows from the edge on. *)
Lemma split_before_filter edge l :
  by_time l ->
  split_before edge l =
    (filter (fun o => fst o <? edge) l,
     filter (fun o => negb (fst o <? edge)) l).
Proof.
  induction 1 as [|o r Hs IH Ho]; [reflexivity|].
  cbn [split_before filter].
  destruct (fst o <? edge) eqn:E; cbn [negb].
  - now rewrite IH.
  - apply Z.ltb_ge in E.
    rewrite filter_none, filter_all; [reflexivity| |];
      (eapply Forall_impl; [|exact Ho]); simpl; intros y Hy.
    + apply negb_true_iff, Z.ltb_ge. lia.
    + apply Z.ltb_ge. lia.
Qed.

Lemma grid_0 origin freq : grid origin freq 0 = origin.
Proof. unfold grid. simpl. lia. Qed.

Lemma grid_S origin freq k :
  grid origin freq (S k) = grid (origin + freq) freq k.
Proof. unfold grid. rewrite Nat2Z.inj_succ, Z.mul_succ_l. lia. Qed.

Lemma grid_le origin freq k : 0 < freq -> origin <= grid origin freq k.
Proof. unfold grid. intros. nia. Qed.

(** The bins that one pass over the rows fills are the buckets of the
    grid. *)
Lemma bins_buckets freq n : forall left l,
  0 < freq -> by_time l -> Forall (fun o => left <= fst o) l ->
  bins n left freq l =
    map (fun k => (grid left freq k, bucket (grid left freq k) freq l))
        (seq 0 n).
Proof.
  induction n as [|n IH]; intros left l Hf Hs Hl; [reflexivity|].
  cbn [bins seq map]. rewrite (split_before_filter _ _ Hs).
  rewrite grid_0. f_equal.
  - f_equal. unfold bucket. apply filter_ext_in. intros o Ho.
    rewrite Forall_forall in Hl. specialize (Hl o Ho).
    unfold in_bucket.
    replace (left <=? fst o) with true by (symmetry; apply Z.leb_le; lia).
    reflexivity.
  - rewrite IH; [| exact Hf | now apply by_time_filter |].
    + rewrite <- seq_shift, map_map. apply map_ext. intros k.
      rewrite grid_S. f_equal. unfold bucket. apply filter_narrow.
      intros o Ho. unfold in_bucket in Ho.
      apply andb_true_iff in Ho as [Ho _]. apply Z.leb_le in Ho.
      pose proof (grid_le (left + freq) freq k Hf).
      apply negb_true_iff, Z.ltb_ge. lia.
    + rewrite Forall_forall. intros o Ho. apply filter_In in Ho as [_ Ho].
      apply negb_true_iff, Z.ltb_ge in Ho. exact Ho.
Qed.

Lemma last_nonempty {A : Type} (l : list A) (d d' : A) :
  l <> [] -> last l d = last l d'.
Proof.
  induction l as [|x l IH]; [congruence|]. intros _.
  destruct l as [|y l]; [reflexivity|].
  change (last (y :: l) d = last (y :: l) d'). apply IH. discriminate.
Qed.

Lemma by_time_first t p r o :
  by_time ((t, p) :: r) -> In o ((t, p) :: r) -> t <= fst o.
Proof.
  intros Hs [<-|Ho]; [simpl; lia|].
  inversion Hs as [|? ? _ Hall]; subst.
  rewrite Forall_forall in Hall. exact (Hall o Ho).
Qed.

Lemma In_last {A : Type} (l : list A) (d : A) : l <> [] -> In (last l d) l.
Proof.
  induction l as [|x l IH]; [congruence|]. intros _.
  destruct l as [|y l]; [now left|].
  right. change (In (last (y :: l) d) (y :: l)). apply IH. discriminate.
Qed.

Lemma first_le_last df : by_time df -> df <> [] -> first_ts df <= last_ts df.
Proof.
  intros Hs Hne. destruct df as [|[t p] r]; [congruence|].
  unfold last_ts, first_ts.
  apply (by_time_first t p r _ Hs). now apply In_last.
Qed.

(** The number of bins that [resample_mean] lays out. *)
Lemma bins_count freq first last :
  0 < freq -> first <= last ->
  Z.to_nat ((last + (freq - (last - first) mod freq)
             - (first - (first - first) mod freq)) / freq)
  = S (Z.to_nat ((last - first) / freq)).
Proof.
  intros Hf Hle. rewrite Z.sub_diag, Zmod_0_l, Z.sub_0_r.
  pose proof (Z.div_mod (last - first) freq ltac:(lia)) as Hd.
  replace (last + (freq - (last - first) mod freq) - first)
    with (((last - first) / freq + 1) * freq) by lia.
  rewrite Z.div_mul by lia.
  assert (0 <= (last - first) / freq) by (apply Z.div_pos; lia).
  rewrite Z2Nat.inj_add by lia. simpl. lia.
Qed.

(** On rows in time order, [resample(rule, origin).mean()] with the
    first time as origin lays out [grid_size] bins from the first time. *)
Lemma resample_mean_bins freq df :
  0 < freq -> by_time df -> df <> [] ->
  resample_mean freq (first_ts df) df =
    map (fun b => (fst b, mean (map snd (snd b))))
        (bins (grid_size freq df) (first_ts df) freq df).
Proof.
  intros Hf Hs Hne. unfold resample_mean.
  rewrite (sorted_id fst df Hs).
  pose proof (first_le_last df Hs Hne) as Hle.
  destruct df as [|[t p] r]; [congruence|].
  unfold grid_size. unfold first_ts in *. cbv zeta.
  replace (fst (last ((t, p) :: r) (t, 0%Q))) with (last_ts ((t, p) :: r))
    by (unfold last_ts; f_equal; now apply last_nonempty).
  rewrite (bins_count freq t _ Hf Hle).
  rewrite Z.sub_diag, Zmod_0_l, Z.sub_0_r. reflexivity.
Qed.

(** It gives, at each grid point up to the last time, the mean of the
    bucket that starts there. *)
Lemma resample_mean_buckets freq df :
  0 < freq -> by_time df -> df <> [] ->
  resample_mean freq (first_ts df) df =
    map (fun k => (grid (first_ts df) freq k, bucket_mean freq df k))
        (seq 0 (grid_size freq df)).
Proof.
  intros Hf Hs Hne. rewrite (resample_mean_bins freq df Hf Hs Hne).
  rewrite bins_buckets; [| exact Hf | exact Hs |].
  - rewrite map_map. reflexivity.
  - destruct df as [|[t p] r]; [congruence|].
    rewrite Forall_forall. intros o Ho.
    exact (by_time_first t p r o Hs Ho).
Qed.

(** *** Filling *)

Lemma length_ffill_from vs : forall prev,
  List.length (ffill_from prev vs) = List.length vs.
Proof. induction vs as [|v r IH]; intros prev; simpl; [|rewrite IH]; reflexivity. Qed.

Lemma length_interpolate_from vs : forall prev,
  List.length (interpolate_from prev vs) = List.length vs.
Proof.
  induction vs as [|[y|] r IH]; intros prev; simpl; [|rewrite IH..];
    reflexivity.
Qed.

Lemma combine_fst_snd {A B : Type} (a : list A) : forall (b : list B),
  List.length a = List.length b ->
  map fst (combine a b) = a /\ map snd (combine a b) = b.
Proof.
  induction a as [|x a IH]; intros [|y b] H; try discriminate; simpl.
  - split; reflexivity.
  - injection H as H. destruct (IH b H) as [-> ->]. split; reflexivity.
Qed.

(** Filling keeps the index and replaces the values. *)
Lemma with_values_spec rs f :
  (forall vs, List.length (f vs) = List.length vs) ->
  map fst (with_values rs f) = map fst rs /\
  map snd (with_values rs f) = f (map snd rs).
Proof.
  intros Hlen. unfold with_values. apply combine_fst_snd.
  now rewrite Hlen, !length_map.
Qed.

Lemma ffill_from_nones x r : forall k,
  (forall m, (m <= k)%nat -> nth_error r m = Some None) ->
  nth_error (ffill_from (Some x) r) k = Some (Some x).
Proof.
  induction r as [|v r IH]; intros k H.
  - specialize (H O (Nat.le_0_l k)). discriminate.
  - pose proof (H O (Nat.le_0_l k)) as H0. simpl in H0. injection H0 as ->.
    destruct k as [|k]; [reflexivity|]. simpl. apply IH.
    intros m Hm. apply (H (S m)). lia.
Qed.

(** Forward fill: a position takes the value of the nearest valid
    position at or before it. *)
Lemma ffill_from_gap vs : forall prev i k x,
  nth_error vs i = Some (Some x) -> (i <= k)%nat ->
  (forall m, (i < m <= k)%nat -> nth_error vs m = Some None) ->
  nth_error (ffill_from prev vs) k = Some (Some x).
Proof.
  induction vs as [|v r IH]; intros prev i k x Hi Hik Hgap.
  - destruct i; discriminate.
  - destruct i as [|i].
    + simpl in Hi. injection Hi as ->.
      destruct k as [|k]; [reflexivity|]. simpl. apply ffill_from_nones.
      intros m Hm. apply (Hgap (S m)). lia.
    + destruct k as [|k]; [lia|]. simpl. apply (IH _ i k x).
      * exact Hi.
      * lia.
      * intros m Hm. apply (Hgap (S m)). lia.
Qed.

Lemma next_valid_spec r : forall d y,
  (forall m, (m < d)%nat -> nth_error r m = Some None) ->
  nth_error r d = Some (Some y) ->
  next_valid r = Some (d, y).
Proof.
  induction r as [|v r IH]; intros d y Hn Hd.
  - destruct d; discriminate.
  - destruct d as [|d].
    + simpl in Hd. injection Hd as ->. reflexivity.
    + pose proof (Hn O ltac:(lia)) as H0. simpl in H0. injection H0 as ->.
      simpl. rewrite (IH d y); [reflexivity | | exact Hd].
      intros m Hm. apply (Hn (S m)). lia.
Qed.

Lemma interpolate_from_nones r : forall g x d y k,
  (forall m, (m < d)%nat -> nth_error r m = Some None) ->
  nth_error r d = Some (Some y) -> (k < d)%nat ->
  nth_error (interpolate_from (Some (g, x)) r) k =
    Some (Some (lerp x y (g + k) (d - k))).
Proof.
  induction r as [|v r IH]; intros g x d y k Hn Hd Hk.
  - destruct d; discriminate.
  - destruct d as [|d]; [lia|].
    pose proof (Hn O ltac:(lia)) as H0. simpl in H0. injection H0 as ->.
    assert (forall m, (m < d)%nat -> nth_error r m = Some None) as Hn'
      by (intros m Hm; apply (Hn (S m)); lia).
    cbn [interpolate_from]. rewrite (next_valid_spec r d y Hn' Hd).
    destruct k as [|k]; cbn [nth_error].
    + rewrite Nat.add_0_r, Nat.sub_0_r. reflexivity.
    + rewrite (IH (S g) x d y k Hn' Hd) by lia.
      replace (S g + k)%nat with (g + S k)%nat by lia.
      replace (S d - S k)%nat with (d - k)%nat by lia.
      reflexivity.
Qed.

(** Interpolation: a missing position between two valid ones lies on
    the line through them. *)
Lemma interpolate_from_gap vs : forall prev i k j x y,
  nth_error vs i = Some (Some x) -> nth_error vs j = Some (Some y) ->
  (i < k < j)%nat ->
  (forall m, (i < m < j)%nat -> nth_error vs m = Some None) ->
  nth_error (interpolate_from prev vs) k =
    Some (Some (lerp x y (k - i) (j - k))).
Proof.
  induction vs as [|v r IH]; intros prev i k j x y Hi Hj Hk Hgap.
  - destruct i; discriminate.
  - destruct k as [|k]; [lia|]. destruct j as [|j]; [lia|].
    destruct i as [|i].
    + simpl in Hi. injection Hi as ->. cbn [interpolate_from nth_error].
      rewrite (interpolate_from_nones r 1 x j y k); [| | exact Hj | lia].
      * rewrite Nat.sub_0_r. reflexivity.
      * intros m Hm. apply (Hgap (S m)). lia.
    + assert (nth_error (interpolate_from
                 match v with
                 | Some y0 => Some (1%nat, y0)
                 | None =>
                     match prev with
                     | Some (g, x0) => Some (S g, x0)
                     | None => None
                     end
                 end r) k = Some (Some (lerp x y (k - i) (j - k)))) as H.
      { apply IH; [exact Hi | exact Hj | lia |].
        intros m Hm. apply (Hgap (S m)). lia. }
      destruct v; cbn [interpolate_from nth_error]; exact H.
Qed.

Lemma ffill_from_keep vs prev k x :
  nth_error vs k = Some (Some x) ->
  nth_error (ffill_from prev vs) k = Some (Some x).
Proof.
  intros H. apply (ffill_from_gap vs prev k k x H (Nat.le_refl k)).
  intros m Hm. lia.
Qed.

Lemma interpolate_from_keep vs : forall prev k x,
  nth_error vs k = Some (Some x) ->
  nth_error (interpolate_from prev vs) k = Some (Some x).
Proof.
  induction vs as [|v r IH]; intros prev k x H.
  - destruct k; discriminate.
  - destruct k as [|k].
    + simpl in H. injection H as ->. reflexivity.
    + destruct v; cbn [interpolate_from nth_error]; apply IH; exact H.
Qed.

(** The nearest valid position at or before [k], when the first position
    is valid. *)
Lemma prev_valid_exists (vs : list (option Q)) x0 :
  nth_error vs 0 = Some (Some x0) ->
  forall k, (k < List.length vs)%nat ->
  exists i x, (i <= k)%nat /\ nth_error vs i = Some (Some x) /\
              forall m, (i < m <= k)%nat -> nth_error vs m = Some None.
Proof.
  intros H0. induction k as [|k IH]; intros Hk.
  - exists O, x0. repeat split; [lia | exact H0 |]. intros m Hm. lia.
  - destruct (nth_error vs (S k)) as [[x|]|] eqn:E.
    + exists (S k), x. repeat split; [lia | exact E |]. intros m Hm. lia.
    + destruct (IH ltac:(lia)) as (i & x & Hi & Hx & Hgap).
      exists i, x. repeat split; [lia | exact Hx |].
      intros m Hm. destruct (Nat.eq_dec m (S k)) as [->|Hne]; [exact E|].
      apply Hgap. lia.
    + apply nth_error_None in E. lia.
Qed.

(** The nearest valid position at or after [k], when a later position is
    valid. *)
Lemma next_valid_exists (vs : list (option Q)) j0 y0 :
  nth_error vs j0 = Some (Some y0) ->
  forall n k, (j0 - k = n)%nat -> (k <= j0)%nat ->
  exists j y, (k <= j <= j0)%nat /\ nth_error vs j = Some (Some y) /\
              forall m, (k <= m < j)%nat -> nth_error vs m = Some None.
Proof.
  intros H0. induction n as [|n IH]; intros k Hn Hk.
  - assert (k = j0) as -> by lia.
    exists j0, y0. repeat split; [lia | lia | exact H0 |]. intros m Hm. lia.
  - destruct (nth_error vs k) as [[y|]|] eqn:E.
    + exists k, y. repeat split; [lia | lia | exact E |]. intros m Hm. lia.
    + destruct (IH (S k) ltac:(lia) ltac:(lia)) as (j & y & Hj & Hy & Hgap).
      exists j, y. repeat split; [lia | lia | exact Hy |].
      intros m Hm. destruct (Nat.eq_dec m k) as [->|Hne]; [exact E|].
      apply Hgap. lia.
    + apply nth_error_None in E.
      assert (nth_error vs j0 = None) as Hnone
        by (apply nth_error_None; lia).
      congruence.
Qed.

(** *** The output of [resample_df] on rows in time order *)

Lemma nth_error_map_seq {B : Type} (f : nat -> B) n : forall start k,
  (k < n)%nat -> nth_error (map f (seq start n)) k = Some (f (start + k)%nat).
Proof.
  induction n as [|n IH]; intros start k Hk; [lia|].
  destruct k as [|k]; simpl.
  - now rewrite Nat.add_0_r.
  - rewrite IH by lia. f_equal. f_equal. lia.
Qed.

Lemma mean_empty (l : list obs) : mean (map snd l) = None <-> l = [].
Proof. destruct l; simpl; split; congruence. Qed.

Lemma mean_nonempty (l : list obs) :
  l <> [] -> exists x, mean (map snd l) = Some x.
Proof. destruct l; [congruence|]. simpl. eauto. Qed.

Section Filled.

Variables (df : list obs) (rule : positive).
Hypothesis Hne : df <> [].
Hypothesis Hs : by_time df.

Lemma raw_nth k :
  (k < grid_size (Zpos rule) df)%nat ->
  nth_error (raw df rule) k = Some (bucket_mean (Zpos rule) df k).
Proof. intros Hk. unfold raw. now rewrite nth_error_map_seq. Qed.

Lemma length_raw : List.length (raw df rule) = grid_size (Zpos rule) df.
Proof. unfold raw. now rewrite length_map, length_seq. Qed.

Lemma resample_mean_split :
  map fst (resample_mean (Zpos rule) (first_ts df) df) =
    map (grid (first_ts df) (Zpos rule)) (seq 0 (grid_size (Zpos rule) df)) /\
  map snd (resample_mean (Zpos rule) (first_ts df) df) = (raw df rule).
Proof.
  rewrite (resample_mean_buckets (Zpos rule) df eq_refl Hs Hne).
  rewrite !map_map. split; reflexivity.
Qed.

Lemma resample_df_unfold method :
  resample_df df rule method =
    let rs := resample_mean (Zpos rule) (first_ts df) df in
    if String.eqb method "ffill" then ffill rs
    else if String.eqb method "linear" then interpolate rs
    else rs.
Proof.
  unfold resample_df, first_ts. destruct df as [|[t p] r]; [congruence|].
  reflexivity.
Qed.

(** The output lies on the grid, whatever the method. *)
Lemma resample_df_index method :
  map fst (resample_df df rule method) =
    map (grid (first_ts df) (Zpos rule)) (seq 0 (grid_size (Zpos rule) df)).
Proof.
  rewrite resample_df_unfold. cbv zeta.
  destruct resample_mean_split as [Hi _].
  destruct (String.eqb method "ffill"); [|destruct (String.eqb method "linear")].
  - unfold ffill.
    rewrite (proj1 (with_values_spec _ ffill_values
                      (fun vs => length_ffill_from vs None))).
    exact Hi.
  - unfold interpolate.
    rewrite (proj1 (with_values_spec _ interpolate_values
                      (fun vs => length_interpolate_from vs None))).
    exact Hi.
  - exact Hi.
Qed.

Lemma resample_df_ffill_values :
  map snd (resample_df df rule "ffill") = ffill_values (raw df rule).
Proof.
  rewrite resample_df_unfold. cbv zeta. cbn [String.eqb Ascii.eqb Bool.eqb].
  unfold ffill.
  rewrite (proj2 (with_values_spec _ ffill_values
                    (fun vs => length_ffill_from vs None))).
  now rewrite (proj2 resample_mean_split).
Qed.

Lemma resample_df_linear_values :
  map snd (resample_df df rule "linear") = interpolate_values (raw df rule).
Proof.
  rewrite resample_df_unfold. cbv zeta.
  change (String.eqb "linear" "ffill") with false.
  change (String.eqb "linear" "linear") with true. cbv iota.
  unfold interpolate.
  rewrite (proj2 (with_values_spec _ interpolate_values
                    (fun vs => length_interpolate_from vs None))).
  now rewrite (proj2 resample_mean_split).
Qed.

(** The first bucket holds the first row and the last bucket the last
    row. *)
Lemma first_bucket :
  bucket (grid (first_ts df) (Zpos rule) 0) (Zpos rule) df <> [].
Proof.
  destruct df as [|[t p] r]; [congruence|].
  rewrite grid_0. unfold bucket, first_ts. cbn [filter].
  unfold in_bucket. cbn [fst].
  replace (t <=? t) with true by (symmetry; apply Z.leb_le; lia).
  replace (t <? t + Z.pos rule) with true by (symmetry; apply Z.ltb_lt; lia).
  discriminate.
Qed.

Lemma last_bucket :
  bucket (grid (first_ts df) (Zpos rule)
            (grid_size (Zpos rule) df - 1)) (Zpos rule) df <> [].
Proof.
  pose proof (first_le_last df Hs Hne) as Hle.
  assert (In (last df (0, 0%Q)) df) as Hin by now apply In_last.
  intros E.
  assert (In (last df (0, 0%Q))
            (bucket (grid (first_ts df) (Zpos rule)
                       (grid_size (Zpos rule) df - 1)) (Zpos rule) df)) as Hb.
  { apply filter_In. split; [exact Hin|].
    unfold in_bucket, grid, grid_size. fold (last_ts df).
    replace (S (Z.to_nat ((last_ts df - first_ts df) / Z.pos rule)) - 1)%nat
      with (Z.to_nat ((last_ts df - first_ts df) / Z.pos rule)) by lia.
    assert (0 <= (last_ts df - first_ts df) / Z.pos rule)
      by (apply Z.div_pos; lia).
    rewrite Z2Nat.id by lia.
    pose proof (Z.div_mod (last_ts df - first_ts df) (Z.pos rule)
                  ltac:(lia)) as Hd.
    pose proof (Z.mod_pos_bound (last_ts df - first_ts df) (Z.pos rule)
                  ltac:(lia)) as Hm.
    apply andb_true_iff. split; [apply Z.leb_le | apply Z.ltb_lt]; lia. }
  rewrite E in Hb. contradiction.
Qed.

End Filled.

(** The values of the output, by the means of the buckets. *)
Lemma resample_df_bucket_values df rule method :
  df <> [] -> by_time df ->
  method = "ffill"%string \/ method = "linear"%string ->
  map fst (resample_df df rule method) =
    map (grid (first_ts df) (Zpos rule)) (seq 0 (grid_size (Zpos rule) df)) /\
  (forall k, (k < grid_size (Zpos rule) df)%nat -> cell df rule k <> [] ->
     value_at (resample_df df rule method) k =
       Some (mean (map snd (cell df rule k)))) /\
  (forall k, (k < grid_size (Zpos rule) df)%nat -> cell df rule k = [] ->
     exists i j x y,
       (i < k < j)%nat /\ (j < grid_size (Zpos rule) df)%nat /\
       mean (map snd (cell df rule i)) = Some x /\
       mean (map snd (cell df rule j)) = Some y /\
       (forall m, (i < m < j)%nat -> cell df rule m = []) /\
       (method = "ffill"%string ->
          value_at (resample_df df rule method) k = Some (Some x)) /\
       (method = "linear"%string ->
          value_at (resample_df df rule method) k =
            Some (Some (lerp x y (k - i) (j - k))))).
Proof.
  intros Hne Hs Hm.
  pose proof (raw_nth df rule) as Hraw.
  assert (forall k x, nth_error (raw df rule) k = Some (Some x) ->
            value_at (resample_df df rule method) k = Some (Some x)) as Hkeep.
  { intros k x Hk. unfold value_at. destruct Hm as [->| ->].
    - rewrite (resample_df_ffill_values df rule Hne Hs).
      now apply ffill_from_keep.
    - rewrite (resample_df_linear_values df rule Hne Hs).
      now apply interpolate_from_keep. }
  split; [apply (resample_df_index df rule Hne Hs)|]. split.
  - intros k Hk Hcell.
    destruct (mean_nonempty _ Hcell) as (x & Hx). rewrite Hx.
    apply Hkeep. rewrite (Hraw k Hk). unfold bucket_mean. fold (cell df rule k).
    now rewrite Hx.
  - intros k Hk Hcell.
    assert (forall m, (m < grid_size (Zpos rule) df)%nat ->
              nth_error (raw df rule) m = Some None -> cell df rule m = [])
      as Hnone.
    { intros m Hm' E. rewrite (Hraw m Hm') in E. injection E as E.
      now apply mean_empty in E. }
    assert (nth_error (raw df rule) k = Some None) as Hk0.
    { rewrite (Hraw k Hk). unfold bucket_mean. fold (cell df rule k).
      rewrite Hcell. reflexivity. }
    destruct (mean_nonempty _ (first_bucket df rule Hne Hs)) as (x0 & Hx0).
    destruct (mean_nonempty _ (last_bucket df rule Hne Hs)) as (y0 & Hy0).
    assert (nth_error (raw df rule) 0 = Some (Some x0)) as H0.
    { rewrite (Hraw O) by (unfold grid_size; lia).
      unfold bucket_mean. now rewrite Hx0. }
    assert (nth_error (raw df rule) (grid_size (Zpos rule) df - 1)
            = Some (Some y0)) as Hlast.
    { rewrite Hraw by (unfold grid_size; lia).
      unfold bucket_mean. now rewrite Hy0. }
    destruct (prev_valid_exists (raw df rule) x0 H0 k) as (i & x & Hi & Hx & Hgi).
    { rewrite length_raw. exact Hk. }
    destruct (next_valid_exists (raw df rule) _ y0 Hlast
                (grid_size (Zpos rule) df - 1 - k) k eq_refl ltac:(lia))
      as (j & y & Hj & Hy & Hgj).
    assert (i <> k) by (intros ->; congruence).
    assert (j <> k) by (intros ->; congruence).
    assert (forall m, (i < m < j)%nat -> nth_error (raw df rule) m = Some None)
      as Hgap.
    { intros m Hm'. destruct (Nat.le_gt_cases m k).
      - apply Hgi. lia.
      - apply Hgj. lia. }
    exists i, j, x, y. repeat split; try lia.
    + rewrite (Hraw i) in Hx by lia. now injection Hx.
    + rewrite (Hraw j) in Hy by lia. now injection Hy.
    + intros m Hm'. apply Hnone; [lia|]. now apply Hgap.
    + intros ->. unfold value_at.
      rewrite (resample_df_ffill_values df rule Hne Hs).
      apply (ffill_from_gap (raw df rule) None i k x Hx); [lia|].
      intros m Hm'. apply Hgi. lia.
    + intros ->. unfold value_at.
      rewrite (resample_df_linear_values df rule Hne Hs).
      apply (interpolate_from_gap (raw df rule) None i k j x y Hx Hy);
        [lia | exact Hgap].
Qed.

(** The sum that [mean] divides is the sum of the values. *)
Lemma sum_total (l : list obs) : forall a,
  (fold_left Qplus (map snd l) a == a + total l)%Q.
Proof.
  induction l as [|o r IH]; intros a; cbn [map fold_left total fold_right].
  - now rewrite Qplus_0_r.
  - rewrite IH. fold (total r). now rewrite Qplus_assoc.
Qed.

Lemma inject_Z_nat_pos n : (0 < n)%nat -> ~ (inject_Z (Z.of_nat n) == 0)%Q.
Proof. intros Hn E. unfold Qeq in E. cbn in E. lia. Qed.

Lemma mean_mean_of (l : list obs) x :
  mean (map snd l) = Some x -> mean_of l x.
Proof.
  destruct l as [|o r]; [discriminate|]. intros [= <-].
  split; [discriminate|].
  pose proof (sum_total (o :: r) 0) as Hs. cbn [map] in Hs.
  unfold sum. cbn [List.length]. rewrite Hs, length_map, Qplus_0_l.
  change (Z.pos (Pos.of_succ_nat (List.length r)))
    with (Z.of_nat (S (List.length r))).
  pose proof (inject_Z_nat_pos (S (List.length r)) ltac:(lia)) as Hn.
  set (n := inject_Z (Z.of_nat (S (List.length r)))) in *.
  now field.
Qed.

Lemma lerp_on_line i j k x y :
  (i < k < j)%nat -> on_line i j k x y (lerp x y (k - i) (j - k)).
Proof.
  intros H. unfold on_line, lerp.
  replace (k - i + (j - k))%nat with (j - i)%nat by lia.
  replace (Z.of_nat (j - i)) with (Z.of_nat (j - k) + Z.of_nat (k - i)) by lia.
  rewrite inject_Z_plus. field.
  rewrite <- inject_Z_plus.
  replace (Z.of_nat (j - k) + Z.of_nat (k - i)) with (Z.of_nat (j - i)) by lia.
  apply inject_Z_nat_pos. lia.
Qed.



(** *** Rows that lie on the grid already *)

Lemma on_grid_from_bounds freq l : forall left,
  0 < freq -> on_grid_from left freq l ->
  Forall (fun o => left <= fst o) l /\ by_time l.
Proof.
  induction l as [|o r IH]; intros left Hf Hg.
  - split; constructor.
  - destruct Hg as [Ho Hg]. destruct (IH (left + freq) Hf Hg) as [Hb Hs].
    split.
    + constructor; [lia|]. eapply Forall_impl; [|exact Hb].
      simpl. intros; lia.
    + constructor; [exact Hs|]. eapply Forall_impl; [|exact Hb].
      simpl. intros; lia.
Qed.

Lemma on_grid_from_last freq l : forall left,
  on_grid_from left freq l -> l <> [] ->
  last_ts l = left + (Z.of_nat (List.length l) - 1) * freq.
Proof.
  induction l as [|o r IH]; intros left Hg Hne; [congruence|].
  destruct Hg as [Ho Hg]. destruct r as [|o' r].
  - unfold last_ts. simpl. lia.
  - change (last_ts (o :: o' :: r)) with (last_ts (o' :: r)).
    rewrite (IH (left + freq) Hg) by discriminate.
    change (List.length (o :: o' :: r)) with (S (List.length (o' :: r))).
    rewrite Nat2Z.inj_succ. lia.
Qed.

Lemma on_grid_size freq df :
  0 < freq -> on_grid freq df -> df <> [] ->
  grid_size freq df = List.length df.
Proof.
  intros Hf Hg Hne. unfold grid_size, on_grid in *.
  rewrite (on_grid_from_last freq df _ Hg Hne).
  replace (first_ts df + (Z.of_nat (List.length df) - 1) * freq - first_ts df)
    with ((Z.of_nat (List.length df) - 1) * freq) by lia.
  rewrite Z.div_mul by lia.
  destruct df; [congruence|]. simpl List.length. lia.
Qed.

Lemma split_before_on_grid freq r left :
  0 < freq -> on_grid_from (left + freq) freq r ->
  split_before (left + freq) r = ([], r).
Proof.
  intros Hf Hg. destruct r as [|o r]; [reflexivity|].
  destruct Hg as [Ho _]. cbn [split_before]. rewrite Ho.
  now rewrite Z.ltb_irrefl.
Qed.

(** Each bin holds the one row of its grid point. *)
Lemma bins_on_grid freq l : forall left,
  0 < freq -> on_grid_from left freq l ->
  bins (List.length l) left freq l = map (fun o => (fst o, [o])) l.
Proof.
  induction l as [|o r IH]; intros left Hf Hg; [reflexivity|].
  destruct Hg as [Ho Hg]. cbn [List.length bins split_before map].
  replace (fst o <? left + freq) with true
    by (symmetry; apply Z.ltb_lt; lia).
  rewrite (split_before_on_grid freq r left Hf Hg).
  rewrite (IH (left + freq) Hf Hg). now rewrite Ho.
Qed.

Lemma ffill_from_somes xs : forall prev,
  ffill_from prev (map Some xs) = map Some xs.
Proof.
  induction xs as [|x xs IH]; intros prev; simpl; [|rewrite IH]; reflexivity.
Qed.

Lemma interpolate_from_somes xs : forall prev,
  interpolate_from prev (map Some xs) = map Some xs.
Proof.
  induction xs as [|x xs IH]; intros prev; simpl; [|rewrite IH]; reflexivity.
Qed.

Lemma combine_map_fst_snd {A B : Type} (l : list (A * B)) :
  combine (map fst l) (map snd l) = l.
Proof.
  induction l as [|[a b] l IH]; simpl; [|rewrite IH]; reflexivity.
Qed.

(** The mean of one value is that value. *)
Lemma mean_single v : exists v', mean [v] = Some v' /\ (v' == v)%Q.
Proof.
  eexists. split; [reflexivity|]. unfold sum. simpl. field.
Qed.

(** On rows that lie on the grid the series is laid out row by row, and
    no method of filling changes it. *)
Lemma resample_df_on_grid df rule method :
  on_grid (Zpos rule) df ->
  resample_df df rule method =
    map (fun o => (fst o, Some (sum [snd o] / inject_Z 1)%Q)) df.
Proof.
  intros Hg. destruct df as [|[t p] r] eqn:Edf; [reflexivity|].
  rewrite <- Edf in *.
  assert (df <> []) as Hne by (rewrite Edf; discriminate).
  destruct (on_grid_from_bounds (Zpos rule) df (first_ts df) eq_refl Hg)
    as [_ Hs].
  rewrite (resample_df_unfold df rule Hne Hs). cbv zeta.
  rewrite (resample_mean_bins (Zpos rule) df eq_refl Hs Hne).
  rewrite (on_grid_size (Zpos rule) df eq_refl Hg Hne).
  rewrite (bins_on_grid (Zpos rule) df _ eq_refl Hg).
  rewrite map_map. cbn [fst snd map mean List.length Z.of_nat].
  set (rs := map _ df).
  assert (map snd rs = map Some (map (fun o => (sum [snd o] / inject_Z 1)%Q) df))
    as Hv by (unfold rs; rewrite !map_map; reflexivity).
  assert (with_values rs ffill_values = rs) as Hf.
  { unfold with_values, ffill_values. rewrite Hv, ffill_from_somes, <- Hv.
    apply combine_map_fst_snd. }
  assert (with_values rs interpolate_values = rs) as Hi.
  { unfold with_values, interpolate_values.
    rewrite Hv, interpolate_from_somes, <- Hv.
    apply combine_map_fst_snd. }
  unfold ffill, interpolate. rewrite Hf, Hi.
  destruct (String.eqb method "ffill"); [|destruct (String.eqb method "linear")];
    reflexivity.
Qed.

(** C8.  Resampling rows that lie on the output grid already, one row per
    grid point, gives back the same times and values, under forward fill,
    under linear interpolation and under any other method. *)
Theorem resample_df_identity df rule method :
  on_grid (Zpos rule) df ->
  same_series (resample_df df rule method) df.
Proof.
  intros Hg. rewrite (resample_df_on_grid df rule method Hg).
  clear Hg. unfold same_series.
  induction df as [|o r IH]; simpl; constructor; [|exact IH].
  split; [reflexivity|]. cbn [snd].
  destruct (mean_single (snd o)) as (v & Hv & Hq).
  exists v. split; [|exact Hq].
  simpl in Hv. injection Hv as <-. reflexivity.
Qed.

Lemma resample_df_identity_witness :
  same_series (resample_df three_on_grid half_hour "ffill") three_on_grid /\
  same_series (resample_df three_on_grid half_hour "linear") three_on_grid.
Proof.
  split.
  - apply (resample_df_identity three_on_grid half_hour "ffill").
    repeat split.
  - apply (resample_df_identity three_on_grid half_hour "linear").
    repeat split.
Defined.

(** *** Elapsed hours *)

(** The labels of the bins are grid points, whatever the rows. *)
Lemma bins_index freq n : forall left l,
  map fst (bins n left freq l) = map (grid left freq) (seq 0 n).
Proof.
  induction n as [|n IH]; intros left l; [reflexivity|].
  cbn [bins seq map]. destruct (split_before (left + freq) l) as [here rest].
  cbn [map fst]. rewrite IH, grid_0. f_equal.
  rewrite <- seq_shift, map_map. apply map_ext. intros k.
  now rewrite grid_S.
Qed.

Lemma resample_mean_index freq origin l :
  exists left n,
    map fst (resample_mean freq origin l) = map (grid left freq) (seq 0 n).
Proof.
  unfold resample_mean. destruct (sorted fst false l) as [|[first p] r].
  - exists 0, O. reflexivity.
  - cbv zeta. eexists _, _. rewrite map_map. cbn [fst]. apply bins_index.
Qed.

(** The output of [resample_df] lies on a grid, for every input. *)
Lemma resample_df_on_a_grid df rule method :
  exists left n,
    map fst (resample_df df rule method) =
      map (grid left (Zpos rule)) (seq 0 n).
Proof.
  unfold resample_df. destruct df as [|[origin p] r].
  - exists 0, O. reflexivity.
  - cbv zeta.
    destruct (resample_mean_index (Zpos rule) origin ((origin, p) :: r))
      as (left & n & Hi).
    exists left, n.
    destruct (String.eqb method "ffill"); [|destruct (String.eqb method "linear")].
    + unfold ffill.
      rewrite (proj1 (with_values_spec _ ffill_values
                        (fun vs => length_ffill_from vs None))).
      exact Hi.
    + unfold interpolate.
      rewrite (proj1 (with_values_spec _ interpolate_values
                        (fun vs => length_interpolate_from vs None))).
      exact Hi.
    + exact Hi.
Qed.

Lemma elapsed_hours_zero a : (elapsed_hours a a == 0)%Q.
Proof.
  unfold elapsed_hours, total_seconds. rewrite Z.sub_diag. reflexivity.
Qed.

Lemma elapsed_hours_mono a t t' :
  t <= t' -> (elapsed_hours a t <= elapsed_hours a t')%Q.
Proof.
  intros H. unfold elapsed_hours, total_seconds.
  apply Qmult_le_compat_r; [|discriminate].
  unfold Qle. cbn [Qnum Qden]. nia.
Qed.

Lemma elapsed_hours_nonneg a t : a <= t -> (0 <= elapsed_hours a t)%Q.
Proof.
  intros H. rewrite <- (elapsed_hours_zero a). now apply elapsed_hours_mono.
Qed.

(** Nanoseconds over the nanoseconds of an hour. *)
Lemma elapsed_hours_ratio a t :
  (elapsed_hours a t ==
   inject_Z (t - a) / inject_Z (3600 * NS_PER_SECOND))%Q.
Proof.
  unfold elapsed_hours, total_seconds, NS_PER_SECOND.
  unfold Qeq, Qdiv, Qmult, Qinv, inject_Z. cbn [Qnum Qden]. simpl. lia.
Qed.

Lemma sorted_on_grid a left freq n :
  0 < freq ->
  StronglySorted Qle
    (map (elapsed_hours a) (map (grid left freq) (seq 0 n))).
Proof.
  intros Hf. generalize O as start.
  induction n as [|n IH]; intros start; simpl; constructor; [apply IH|].
  rewrite Forall_forall. intros e He.
  apply in_map_iff in He as (t & <- & Ht).
  apply in_map_iff in Ht as (k & <- & Hk).
  apply in_seq in Hk. apply elapsed_hours_mono. unfold grid. nia.
Qed.



End ResampleFacts.

(* ------------------------------------------------------------------------- *)
(** ** The plan in closed form, and runs of the backfill                     *)
(* ------------------------------------------------------------------------- *)

Module PlanFacts.
Import Datetime FetchCbHistory ChunkSpec BackfillSpec PlanSpec.
Import ChunkFacts BackfillFacts.

Lemma chunk_count_done start end_ span :
  0 < span -> end_ <= start -> chunk_count start end_ span = O.
Proof.
  intros Hs Hle. unfold chunk_count.
  assert ((end_ - start + span - 1) / span <= 0).
  { apply Z.lt_succ_r. apply Z.div_lt_upper_bound; lia. }
  lia.
Qed.

Lemma plan_done start end_ span :
  0 < span -> end_ <= start -> plan start end_ span = [].
Proof. intros Hs Hle. unfold plan. now rewrite chunk_count_done. Qed.

(** The first chunk, and the plan of what is left. *)
Lemma plan_step start end_ span :
  0 < span -> start < end_ ->
  plan start end_ span =
    (start, Z.min (start + span) end_)
      :: plan (Z.min (start + span) end_) end_ span.
Proof.
  intros Hs Hlt. destruct (Z.le_gt_cases end_ (start + span)) as [Hle|Hgt].
  - rewrite (Z.min_r (start + span)) by lia.
    rewrite (plan_done end_ end_ span) by lia.
    unfold plan, chunk_count.
    replace ((end_ - start + span - 1) / span) with 1
      by (apply Z.div_unique with (r := end_ - start - 1); lia).
    change (Z.to_nat 1) with 1%nat. cbn [seq map]. unfold nth_chunk.
    cbn [Z.of_nat]. f_equal. f_equal; lia.
  - rewrite (Z.min_l (start + span)) by lia.
    unfold plan, chunk_count.
    replace (end_ - start + span - 1)
      with (end_ - (start + span) + span - 1 + 1 * span) by lia.
    rewrite Z.div_add by lia.
    assert (0 <= (end_ - (start + span) + span - 1) / span)
      by (apply Z.div_pos; lia).
    rewrite Z2Nat.inj_add by lia.
    change (Z.to_nat 1) with 1%nat. rewrite Nat.add_1_r.
    cbn [seq map]. f_equal.
    + unfold nth_chunk. cbn [Z.of_nat]. f_equal; lia.
    + rewrite <- seq_shift, map_map. apply map_ext. intros k.
      unfold nth_chunk. rewrite Nat2Z.inj_succ. f_equal; [lia|].
      f_equal. lia.
Qed.

Lemma drain_plan n : forall span end_ cur,
  0 < span -> 0 <= cur -> end_ + span <= datetime_max ->
  (Z.to_nat (end_ - cur) <= n)%nat ->
  drain (S n) span end_ cur = Returned (plan cur end_ span).
Proof.
  induction n as [|n IH]; intros span end_ cur Hs H0 Hmax Hn.
  - rewrite plan_done by lia. simpl. unfold daterange_chunks_next.
    replace (cur <? end_) with false by (symmetry; apply Z.ltb_ge; lia).
    reflexivity.
  - destruct (Z.le_gt_cases end_ cur) as [Hle|Hlt].
    + rewrite plan_done by lia.
      change (drain (S (S n)) span end_ cur) with
        (match daterange_chunks_next span end_ cur with
         | StopIteration => Returned []
         | Throw e => Raised e
         | Yield c cur' =>
             match drain (S n) span end_ cur' with
             | Returned l => Returned (c :: l)
             | Raised e => Raised e
             | OutOfFuel => OutOfFuel
             end
         end).
      unfold daterange_chunks_next.
      replace (cur <? end_) with false by (symmetry; apply Z.ltb_ge; lia).
      reflexivity.
    + rewrite (plan_step cur end_ span Hs) by lia.
      change (drain (S (S n)) span end_ cur) with
        (match daterange_chunks_next span end_ cur with
         | StopIteration => Returned []
         | Throw e => Raised e
         | Yield c cur' =>
             match drain (S n) span end_ cur' with
             | Returned l => Returned (c :: l)
             | Raised e => Raised e
             | OutOfFuel => OutOfFuel
             end
         end).
      unfold daterange_chunks_next.
      replace (cur <? end_) with true by (symmetry; apply Z.ltb_lt; lia).
      rewrite add_ok by lia. cbv zeta.
      rewrite (IH span end_ (Z.min (cur + span) end_)) by lia.
      reflexivity.
Qed.

(** X1.  For a positive granularity (and an [end] one span before
    [datetime.max]) the planner returns the chunks of the closed form:
    chunk number [k] starts [k] spans after [start] and ends one span
    later or at [end], and there are as many chunks as spans fit in the
    range, rounded up; none when [end <= start]. *)
Theorem daterange_chunks_closed_form start end_ granularity :
  0 <= start -> 0 <= end_ -> 0 < granularity ->
  end_ + max_width granularity <= datetime_max ->
  exists fuel, forall fuel', (fuel <= fuel')%nat ->
    daterange_chunks fuel' start end_ granularity =
      Returned (plan start end_ (max_width granularity)).
Proof.
  intros H0 He Hg Hmax.
  assert (0 < max_width granularity) as Hpos
    by (unfold max_width, US_PER_SECOND; lia).
  exists (S (Z.to_nat (end_ - start))). intros fuel' Hf.
  unfold daterange_chunks. rewrite start_ok by lia.
  apply (drain_more_fuel (S (Z.to_nat (end_ - start)))); [|exact Hf].
  apply drain_plan; lia.
Qed.

Lemma daterange_chunks_closed_form_witness :
  exists fuel, forall fuel', (fuel <= fuel')%nat ->
    daterange_chunks fuel' jan1 jan3_noon 300 =
      Returned (plan jan1 jan3_noon (max_width 300)).
Proof.
  apply (daterange_chunks_closed_form jan1 jan3_noon 300);
    discriminate || reflexivity.
Defined.

(** *** A negative granularity *)

Lemma add_overflow d td : d + td < 0 -> add d td = Raise OverflowError.
Proof.
  intros H. unfold add, in_range, datetime_min. cbv zeta.
  replace (0 <=? d + td) with false by (symmetry; apply Z.leb_gt; lia).
  reflexivity.
Qed.

Lemma drain_more_fuel_raised n : forall m span end_ cur e,
  drain n span end_ cur = Raised e -> (n <= m)%nat ->
  drain m span end_ cur = Raised e.
Proof.
  induction n as [|n IH]; intros m span end_ cur e H Hm; [discriminate|].
  destruct m as [|m]; [lia|]. simpl in *.
  destruct (daterange_chunks_next span end_ cur) as [c cur'| |e0];
    try congruence.
  destruct (drain n span end_ cur') as [l'|e1|] eqn:E; try discriminate.
  rewrite (IH m _ _ _ _ E); [exact H | lia].
Qed.

(** With a negative span the loop walks back in time until the
    arithmetic leaves the range of [datetime]. *)
Lemma drain_negative_span n : forall span end_ cur,
  span < 0 -> 0 <= cur -> cur < end_ -> end_ <= datetime_max ->
  (Z.to_nat cur <= n)%nat ->
  drain (S n) span end_ cur = Raised OverflowError.
Proof.
  induction n as [|n IH]; intros span end_ cur Hs H0 Hlt Hmax Hn.
  - simpl. unfold daterange_chunks_next.
    replace (cur <? end_) with true by (symmetry; apply Z.ltb_lt; lia).
    rewrite add_overflow by lia. reflexivity.
  - change (drain (S (S n)) span end_ cur) with
      (match daterange_chunks_next span end_ cur with
       | StopIteration => Returned []
       | Throw e => Raised e
       | Yield c cur' =>
           match drain (S n) span end_ cur' with
           | Returned l => Returned (c :: l)
           | Raised e => Raised e
           | OutOfFuel => OutOfFuel
           end
       end).
    unfold daterange_chunks_next.
    replace (cur <? end_) with true by (symmetry; apply Z.ltb_lt; lia).
    destruct (Z.lt_ge_cases (cur + span) 0) as [Hneg|Hpos].
    + rewrite add_overflow by lia. reflexivity.
    + rewrite add_ok by lia. cbv zeta.
      rewrite (IH span end_ (Z.min (cur + span) end_)) by lia.
      reflexivity.
Qed.

(** X2.  With a negative granularity (whose 300-fold is a [timedelta])
    and [start < end], the planner never finishes the plan: after finitely
    many steps back in time it raises [OverflowError]. *)
Theorem daterange_chunks_negative_granularity start end_ granularity :
  granularity < 0 ->
  - MAX_DELTA_DAYS <= granularity * 300 / 86400 ->
  0 <= start -> start < end_ -> end_ <= datetime_max ->
  ends_raising start end_ granularity OverflowError.
Proof.
  intros Hg Hrep H0 Hlt Hmax.
  exists (S (Z.to_nat start)). intros fuel' Hf.
  unfold daterange_chunks, daterange_chunks_start.
  rewrite timedelta_of_seconds_ok.
  - apply (drain_more_fuel_raised (S (Z.to_nat start))); [|exact Hf].
    apply drain_negative_span; try lia. unfold US_PER_SECOND. lia.
  - split; [exact Hrep|].
    assert (granularity * 300 / 86400 < 0)
      by (apply Z.div_lt_upper_bound; lia).
    unfold MAX_DELTA_DAYS. lia.
Qed.

Lemma daterange_chunks_negative_granularity_witness :
  ends_raising jan1 jan2_2am (-300) OverflowError.
Proof.
  apply (daterange_chunks_negative_granularity jan1 jan2_2am (-300));
    discriminate || reflexivity.
Defined.

(** *** Runs of the backfill *)

(** An exchange that answers every request has answers for any chunks. *)
Lemma answers_exist
    (fetch : nat -> datetime -> datetime -> result (list candle)) :
  (forall n a b, exists r, fetch n a b = Ok r /\ Forall valid_time r) ->
  forall l k, exists rs,
    answers fetch k l rs /\ Forall (Forall valid_time) rs.
Proof.
  intros Hf. induction l as [|c l IH]; intros k.
  - exists []. split; [exact I | constructor].
  - destruct (Hf k (fst c) (snd c)) as (r & Hr & Hv).
    destruct (IH (S k)) as (rs & Ha & Hvs).
    exists (r :: rs). split; [now split | now constructor].
Qed.

Lemma length_plan start end_ span :
  List.length (plan start end_ span) = chunk_count start end_ span.
Proof. unfold plan. now rewrite length_map, length_seq. Qed.



(** X4.  The backfill is not idempotent: a second run over the same
    range, answered as the first was, appends the same rows once more
    after those of the first run. *)
Theorem main_rerun_appends_again
    (fetch : nat -> datetime -> datetime -> result (list candle))
    fuel start end_ granularity existing l rs :
  daterange_chunks fuel start end_ granularity = Returned l ->
  answers fetch 0 l rs ->
  Forall (Forall valid_time) rs ->
  main fetch fuel start end_ granularity
       (file (fst (main fetch fuel start end_ granularity existing))) =
    ({| file := existing ++ written rs ++ written rs; requested := l;
        total_chunks := List.length l |}, Returned (List.length l)).
Proof.
  intros Hd Ha Hv. unfold main, daterange_chunks in *.
  destruct (daterange_chunks_start granularity) as [span|e]; [|discriminate].
  rewrite (main_loop_ok fetch fuel span end_ start l
             (Run existing [] 0) rs Hd Ha Hv).
  cbn [fst file].
  rewrite (main_loop_ok fetch fuel span end_ start l
             (Run (existing ++ written rs) [] 0) rs Hd Ha Hv).
  cbn [file requested total_chunks app Nat.add].
  now rewrite <- app_assoc.
Qed.

Lemma main_rerun_appends_again_witness :
  main steady_exchange 3 jan1 jan2_2am 300
       (file (fst (main steady_exchange 3 jan1 jan2_2am 300 []))) =
    ({| file := [] ++
          written [[flat 1451606700; flat 1451606400];
                   [flat 1451696700; flat 1451696400]] ++
          written [[flat 1451606700; flat 1451606400];
                   [flat 1451696700; flat 1451696400]];
        requested := [(jan1, 63587293200000000);
                      (63587293200000000, jan2_2am)];
        total_chunks := 2 |}, Returned 2%nat).
Proof.
  apply (main_rerun_appends_again steady_exchange 3 jan1 jan2_2am 300 []
           [(jan1, 63587293200000000); (63587293200000000, jan2_2am)]
           [[flat 1451606700; flat 1451606400];
            [flat 1451696700; flat 1451696400]]).
  - reflexivity.
  - simpl. repeat split; reflexivity.
  - repeat constructor; reflexivity.
Defined.

End PlanFacts.

(* ------------------------------------------------------------------------- *)
(** ** Stability of [sorted], and the resolver in one pass                   *)
(* ------------------------------------------------------------------------- *)

Section StableFacts.

Context {A : Type}.
Variable key : A -> Z.

Lemma insert_front reverse x l :
  (forall z, In z l -> in_order key reverse x z) ->
  insert key reverse x l = x :: l.
Proof.
  destruct l as [|y l]; [reflexivity|]. intros H. cbn [insert].
  now rewrite (proj2 (before_in_order key reverse x y) (H y (or_introl eq_refl))).
Qed.

(** Filtering a sorted list and inserting commute. *)
Lemma filter_insert (p : A -> bool) reverse x s :
  StronglySorted (in_order key reverse) s ->
  filter p (insert key reverse x s) =
    if p x then insert key reverse x (filter p s) else filter p s.
Proof.
  induction 1 as [|y s Hs IH Hy]; [simpl; now destruct (p x)|].
  cbn [insert]. destruct (before key reverse x y) eqn:E.
  - cbn [filter]. destruct (p x); [|reflexivity].
    symmetry. apply insert_front. intros z Hz.
    apply before_in_order in E.
    assert (In z (y :: s)) as Hin.
    { destruct (p y); [destruct Hz as [<-|Hz]; [now left|right]|right];
        now apply filter_In in Hz. }
    destruct Hin as [<-|Hin]; [exact E|].
    rewrite Forall_forall in Hy.
    exact (in_order_trans key reverse x y z E (Hy z Hin)).
  - cbn [filter]. rewrite IH. destruct (p y).
    + destruct (p x); [|reflexivity]. cbn [insert]. now rewrite E.
    + reflexivity.
Qed.

Lemma filter_sorted (p : A -> bool) reverse l :
  filter p (sorted key reverse l) = sorted key reverse (filter p l).
Proof.
  induction l as [|x l IH]; [reflexivity|].
  cbn [sorted fold_right]. fold (sorted key reverse l).
  rewrite filter_insert by apply sorted_sorted.
  cbn [filter]. rewrite IH. now destruct (p x).
Qed.

(** The head of the sorted list is the first best element. *)
Lemma hd_sorted reverse l :
  hd_error (sorted key reverse l) = first_best key reverse l.
Proof.
  induction l as [|x l IH]; [reflexivity|].
  cbn [sorted fold_right first_best]. fold (sorted key reverse l).
  rewrite <- IH. destruct (sorted key reverse l) as [|y s]; [reflexivity|].
  cbn [insert hd_error]. now destruct (before key reverse x y).
Qed.

(** Sorting moves no element past one with the same key, so the first
    best element of either kind stays the same. *)
Lemma first_best_insert reverse reverse' x s :
  first_best key reverse' (insert key reverse x s) =
  first_best key reverse' (x :: s).
Proof.
  induction s as [|y s IH]; [reflexivity|].
  cbn [insert]. destruct (before key reverse x y) eqn:E; [reflexivity|].
  change (first_best key reverse' (y :: insert key reverse x s))
    with (match first_best key reverse' (insert key reverse x s) with
          | None => Some y
          | Some z => if before key reverse' y z then Some y else Some z
          end).
  rewrite IH. cbn [first_best].
  assert (key x <> key y) as Hne
    by (unfold before in E; destruct reverse; apply Z.leb_gt in E; lia).
  destruct (first_best key reverse' s) as [m|]; unfold before;
    destruct reverse';
    repeat match goal with
           | |- context [?a <=? ?b] => destruct (Z.leb_spec a b)
           end; try reflexivity; lia.
Qed.

Lemma first_best_sorted reverse reverse' l :
  first_best key reverse' (sorted key reverse l) = first_best key reverse' l.
Proof.
  induction l as [|x l IH]; [reflexivity|].
  cbn [sorted fold_right]. fold (sorted key reverse l).
  rewrite first_best_insert. cbn [first_best]. now rewrite IH.
Qed.

Lemma first_best_In reverse l x :
  first_best key reverse l = Some x ->
  In x l /\ forall y, In y l -> in_order key reverse x y.
Proof.
  rewrite <- hd_sorted. intros H.
  destruct (sorted key reverse l) as [|z s] eqn:E; [discriminate|].
  injection H as ->. exact (sorted_head key reverse l x s E).
Qed.

Lemma first_best_none reverse l : first_best key reverse l = None -> l = [].
Proof.
  destruct l as [|x l]; [reflexivity|]. cbn [first_best].
  destruct (first_best key reverse l); [|discriminate].
  now destruct (before key reverse x a).
Qed.

(** Elements with one key keep their order. *)
Lemma sorted_stable reverse l t :
  filter (fun x => key x =? t) (sorted key reverse l) =
  filter (fun x => key x =? t) l.
Proof.
  rewrite filter_sorted.
  assert (forall z, In z (filter (fun x => key x =? t) l) -> key z = t) as Hk
    by (intros z Hz; apply filter_In in Hz as [_ Hz]; now apply Z.eqb_eq).
  induction (filter (fun x => key x =? t) l) as [|x r IH]; [reflexivity|].
  cbn [sorted fold_right]. fold (sorted key reverse r).
  rewrite IH by (intros z Hz; apply Hk; now right).
  apply insert_front. intros z Hz. unfold in_order.
  rewrite (Hk x (or_introl eq_refl)), (Hk z (or_intror Hz)).
  destruct reverse; lia.
Qed.

End StableFacts.

Module ResolveFacts.
Import Datetime Api ApiSpec ResolveSpec.

Lemma first_hd {A : Type} (xs : list A) :
  first xs = match hd_error xs with
             | Some x => Ok x
             | None => Raise IndexError
             end.
Proof. now destruct xs. Qed.

(** The resolver chooses as one pass over the events, in the order
    given, would. *)
Lemma get_latest_as_resolve events now :
  get_latest_btc_daily_event events now = resolve events now.
Proof.
  unfold get_latest_btc_daily_event, resolve, get_all_btc_daily_events.
  destruct events as [|e0 events]; [reflexivity|].
  set (evs := e0 :: events).
  destruct (sorted _end_date false evs) as [|b0 base] eqn:Eb.
  { exfalso.
    apply (ResolverFacts.sorted_nonempty _end_date false evs);
      [discriminate | exact Eb]. }
  rewrite <- Eb. clear Eb b0 base.
  change (fun evt => negb (closed evt) && (now <? _end_date evt))
    with (is_open_future now).
  rewrite (filter_sorted _end_date (is_open_future now) false evs).
  pose proof (hd_sorted _end_date false (filter (is_open_future now) evs))
    as Hc.
  destruct (sorted _end_date false (filter (is_open_future now) evs))
    as [|c0 cs] eqn:Ec.
  - cbn [hd_error] in Hc. rewrite <- Hc.
    rewrite first_hd, hd_sorted, first_best_sorted. reflexivity.
  - rewrite <- Ec in *.
    rewrite (sorted_id _end_date _ (sorted_sorted _end_date false _)).
    rewrite first_hd, Hc.
    destruct (first_best _end_date false (filter (is_open_future now) evs))
      eqn:Ef; [reflexivity|].
    rewrite Ec in Hc. discriminate.
Qed.

Lemma first_best_find {A : Type} (key : A -> Z) reverse l x :
  first_best key reverse l = Some x ->
  find (fun c => key c =? key x) l = Some x.
Proof.
  induction l as [|a r IH]; [discriminate|]. cbn [first_best find].
  destruct (first_best key reverse r) as [y|].
  - destruct (before key reverse a y) eqn:E; intros [= <-].
    + now rewrite Z.eqb_refl.
    + replace (key a =? key y) with false; [now apply IH|].
      symmetry. apply Z.eqb_neq.
      unfold before in E. destruct reverse; apply Z.leb_gt in E; lia.
  - intros [= <-]. now rewrite Z.eqb_refl.
Qed.

Lemma find_filter {A : Type} (p q : A -> bool) l :
  find q (filter p l) = find (fun c => p c && q c) l.
Proof.
  induction l as [|a r IH]; [reflexivity|]. cbn [filter find].
  destruct (p a); cbn [find andb]; [now rewrite IH | exact IH].
Qed.

Lemma existsb_none {A : Type} (p : A -> bool) l :
  filter p l = [] -> existsb p l = false.
Proof.
  induction l as [|a r IH]; [reflexivity|]. cbn [filter existsb].
  destruct (p a); [discriminate|]. exact IH.
Qed.

Lemma existsb_some {A : Type} (p : A -> bool) l x :
  In x (filter p l) -> existsb p l = true.
Proof.
  intros H. apply filter_In in H as [Hin Hp].
  apply existsb_exists. eauto.
Qed.

(** X5.  On equal ends the event met first in the input wins: the event
    that the resolver returns is the first event of the input, in the
    order given, that has its end and, when some event is open and
    future, is open and future itself. *)
Theorem get_latest_first_encountered_wins events now evt :
  get_latest_btc_daily_event events now = Ok evt ->
  find (fun c => (if existsb (is_open_future now) events
                  then is_open_future now c else true)
                 && (_end_date c =? _end_date evt)) events = Some evt.
Proof.
  rewrite get_latest_as_resolve. unfold resolve.
  destruct events as [|e0 events]; [discriminate|].
  set (evs := e0 :: events).
  destruct (first_best _end_date false (filter (is_open_future now) evs))
    as [c|] eqn:Ef.
  - intros [= ->].
    rewrite (existsb_some (is_open_future now) evs evt)
      by (apply (first_best_In _end_date false _ _ Ef)).
    rewrite <- find_filter. exact (first_best_find _end_date false _ _ Ef).
  - apply first_best_none in Ef. rewrite (existsb_none _ _ Ef).
    destruct (first_best _end_date true evs) as [c|] eqn:Eg; [|discriminate].
    intros [= ->]. cbn [andb].
    exact (first_best_find _end_date true _ _ Eg).
Qed.

Lemma get_latest_first_encountered_wins_witness :
  find (fun c => (if existsb (is_open_future 25) [end10; end20; twin20; end5]
                  then is_open_future 25 c else true)
                 && (_end_date c =? _end_date end20))
       [end10; end20; twin20; end5] = Some end20.
Proof.
  apply (get_latest_first_encountered_wins [end10; end20; twin20; end5] 25).
  reflexivity.
Defined.

(** The returned event has the least end among the open and future
    events, or else the greatest among all. *)
Lemma resolve_best events now evt :
  resolve events now = Ok evt ->
  In evt events /\
  ((exists c, In c events /\ is_open_future now c = true) ->
   is_open_future now evt = true /\
   forall c, In c events -> is_open_future now c = true ->
             _end_date evt <= _end_date c) /\
  ((forall c, In c events -> is_open_future now c = false) ->
   forall c, In c events -> _end_date c <= _end_date evt).
Proof.
  unfold resolve. destruct events as [|e0 events]; [discriminate|].
  set (evs := e0 :: events).
  destruct (first_best _end_date false (filter (is_open_future now) evs))
    as [c|] eqn:Ef.
  - intros [= ->]. apply first_best_In in Ef as [Hin Hmin].
    apply filter_In in Hin as [Hin Hopen]. repeat split; try assumption.
    + intros c Hc Ho. apply (Hmin c). apply filter_In. now split.
    + intros Hnone c Hc. rewrite (Hnone evt Hin) in Hopen. discriminate.
  - apply first_best_none in Ef.
    destruct (first_best _end_date true evs) as [c|] eqn:Eg; [|discriminate].
    intros [= ->]. apply first_best_In in Eg as [Hin Hmax].
    repeat split; try assumption.
    + destruct H as (c & Hc & Ho).
      assert (In c (filter (is_open_future now) evs)) as Hbad
        by (apply filter_In; now split).
      rewrite Ef in Hbad. contradiction.
    + destruct H as (c & Hc & Ho).
      assert (In c (filter (is_open_future now) evs)) as Hbad
        by (apply filter_In; now split).
      rewrite Ef in Hbad. contradiction.
    + intros _ c Hc. exact (Hmax c Hc).
Qed.

Lemma resolve_returns events now :
  events <> [] -> exists evt, resolve events now = Ok evt.
Proof.
  unfold resolve. destruct events as [|e0 events]; [congruence|]. intros _.
  destruct (first_best _end_date false _); [eauto|].
  destruct (first_best _end_date true (e0 :: events)) eqn:E; [eauto|].
  apply first_best_none in E. discriminate.
Qed.

Lemma same_end_same_event events a b :
  NoDup (map _end_date events) -> In a events -> In b events ->
  _end_date a = _end_date b -> a = b.
Proof.
  induction events as [|x events IH]; [contradiction|].
  cbn [map]. intros Hn Ha Hb Heq.
  inversion Hn as [|? ? Hnot Hn']; subst.
  destruct Ha as [->|Ha], Hb as [->|Hb]; try reflexivity.
  - exfalso. apply Hnot. rewrite Heq. now apply in_map.
  - exfalso. apply Hnot. rewrite <- Heq. now apply in_map.
  - now apply IH.
Qed.

Lemma existsb_all_false {A : Type} (p : A -> bool) l :
  existsb p l = false -> forall x, In x l -> p x = false.
Proof.
  intros H x Hx. destruct (p x) eqn:E; [|reflexivity].
  assert (existsb p l = true) by (apply existsb_exists; eauto). congruence.
Qed.

(** X6.  When no two events end at the same instant, the choice does not
    depend on the order in which the events are given. *)
Theorem get_latest_order_independent events events' now :
  Permutation events events' ->
  NoDup (map _end_date events) ->
  get_latest_btc_daily_event events now =
  get_latest_btc_daily_event events' now.
Proof.
  intros Hp Hn. rewrite !get_latest_as_resolve.
  destruct events as [|e0 events].
  { apply Permutation_nil in Hp. now subst. }
  destruct events' as [|e0' events'].
  { symmetry in Hp. apply Permutation_nil in Hp. discriminate. }
  set (evs := e0 :: events) in *. set (evs' := e0' :: events') in *.
  destruct (resolve_returns evs now) as (a & Ha); [discriminate|].
  destruct (resolve_returns evs' now) as (b & Hb); [discriminate|].
  rewrite Ha, Hb. f_equal.
  destruct (resolve_best evs now a Ha) as (Hain & Haopen & Haall).
  destruct (resolve_best evs' now b Hb) as (Hbin & Hbopen & Hball).
  assert (forall x, In x evs <-> In x evs') as Hiff
    by (intros x; split; apply Permutation_in; [|symmetry]; exact Hp).
  apply Hiff in Hbin.
  apply (same_end_same_event evs a b Hn Hain Hbin).
  destruct (existsb (is_open_future now) evs) eqn:E.
  - apply existsb_exists in E as (c & Hc & Ho).
    destruct Haopen as [Ha1 Ha2]; [eauto|].
    destruct Hbopen as [Hb1 Hb2]; [exists c; split; [now apply Hiff|exact Ho]|].
    pose proof (Ha2 b Hbin Hb1).
    pose proof (Hb2 a (proj1 (Hiff a) Hain) Ha1). lia.
  - pose proof (existsb_all_false _ _ E) as Hnone.
    pose proof (Haall Hnone b Hbin).
    assert (forall c, In c evs' -> is_open_future now c = false) as Hnone'
      by (intros c Hc; apply Hnone; now apply Hiff).
    pose proof (Hball Hnone' a (proj1 (Hiff a) Hain)). lia.
Qed.

Lemma get_latest_order_independent_witness :
  get_latest_btc_daily_event [end10; end20; end5] 7 =
  get_latest_btc_daily_event [end5; end20; end10] 7.
Proof.
  apply (get_latest_order_independent [end10; end20; end5] [end5; end20; end10] 7).
  - apply perm_trans with [end20; end10; end5]; [apply perm_swap|].
    apply perm_trans with [end20; end5; end10];
      [apply perm_skip, perm_swap | apply perm_swap].
  - repeat constructor; simpl; intuition discriminate.
Defined.

(** X7.  [get_all_btc_daily_events] returns the events (the closed ones
    with [closed_only]) in ascending order of their ends, none lost or
    added, and events with the same end in the order in which they were
    given. *)
Theorem get_all_sorted_stable events closed_only :
  Permutation (get_all_btc_daily_events events closed_only)
              (selected events closed_only) /\
  ascending (map _end_date (get_all_btc_daily_events events closed_only)) /\
  Forall (fun evt => implb closed_only (closed evt) = true)
         (get_all_btc_daily_events events closed_only) /\
  forall t,
    filter (fun evt => _end_date evt =? t)
           (get_all_btc_daily_events events closed_only) =
    filter (fun evt => _end_date evt =? t) (selected events closed_only).
Proof.
  unfold get_all_btc_daily_events. fold (selected events closed_only).
  repeat split.
  - apply sorted_perm.
  - apply sorted_keys_ascending.
  - rewrite Forall_forall. intros evt Hevt.
    apply (proj1 (sorted_In _end_date false _ evt)) in Hevt.
    destruct closed_only; [|reflexivity].
    cbn [selected] in Hevt. now apply filter_In in Hevt.
  - intros t. apply sorted_stable.
Qed.

End ResolveFacts.

(* ------------------------------------------------------------------------- *)
(** ** Hydrated series, their summaries and their token ids                  *)
(* ------------------------------------------------------------------------- *)

Module SeriesFacts.
Import Datetime Api ApiSpec ApiSeries Orderbook SeriesSpec ResolveSpec.

Section Fetched.

Variable fetch_event : nat -> string -> result value.
Variable str_exc : exn -> string.
Variable json_loads : string -> result value.

Lemma length_hydrate ordered : forall n,
  List.length (hydrate fetch_event str_exc n ordered) = List.length ordered.
Proof.
  induction ordered as [|evt rest IH]; intros n; simpl; [|rewrite IH];
    reflexivity.
Qed.

(** The summary of a placeholder is blank but for the slug. *)
Lemma summarize_placeholder evt exc :
  summarize_value json_loads (placeholder str_exc evt exc) =
    Ok (VDict (blank_summary (slug evt))).
Proof. reflexivity. Qed.

Lemma build_time_series_hydrate ordered : forall n,
  (forall k s v, fetch_event k s = Ok v ->
     exists row, summarize_value json_loads v = Ok row) ->
  exists rows,
    build_time_series json_loads (hydrate fetch_event str_exc n ordered)
      = Ok rows /\
    List.length rows = List.length ordered /\
    forall k evt exc,
      nth_error ordered k = Some evt ->
      fetch_event (n + k) (slug evt) = Raise exc ->
      nth_error rows k = Some (VDict (blank_summary (slug evt))).
Proof.
  induction ordered as [|evt rest IH]; intros n Hok.
  - exists []. repeat split. intros [|k]; discriminate.
  - destruct (IH (S n) Hok) as (rows & Hrows & Hlen & Hblank).
    cbn [hydrate build_time_series].
    destruct (fetch_event n (slug evt)) as [payload|exc0] eqn:E.
    + destruct (Hok n (slug evt) payload E) as (row & Hrow).
      exists (row :: rows). cbv zeta. rewrite Hrow, Hrows. cbn [bind].
      repeat split; [simpl; now rewrite Hlen|].
      intros [|k] e exc Hk Hf.
      * cbn [nth_error] in Hk. injection Hk as <-.
        rewrite Nat.add_0_r in Hf. congruence.
      * cbn [nth_error] in *. apply (Hblank k e exc Hk).
        now rewrite Nat.add_succ_comm.
    + exists (VDict (blank_summary (slug evt)) :: rows). cbv zeta.
      rewrite summarize_placeholder, Hrows. cbn [bind].
      repeat split; [simpl; now rewrite Hlen|].
      intros [|k] e exc Hk Hf.
      * cbn [nth_error] in Hk. now injection Hk as <-.
      * cbn [nth_error] in *. apply (Hblank k e exc Hk).
        now rewrite Nat.add_succ_comm.
Qed.

End Fetched.

(** X8.  A failed request for details does not cost the series its
    summary: when every payload that was fetched can be summarized, the
    summaries of the hydrated series are built, one per event in the order
    of the ends, and an event whose details could not be fetched gets the
    row that holds its slug, empty lists for outcomes, prices and token
    ids, and [None] elsewhere. *)
Theorem build_time_series_survives_failed_details
    (fetch_event : nat -> string -> result value) (str_exc : exn -> string)
    (json_loads : string -> result value) events closed_only :
  (forall k s v, fetch_event k s = Ok v ->
     exists row, summarize_value json_loads v = Ok row) ->
  exists rows,
    build_time_series json_loads
      (get_all_btc_daily_events_detailed fetch_event str_exc events closed_only)
      = Ok rows /\
    List.length rows = List.length (selected events closed_only) /\
    forall k evt exc,
      nth_error (get_all_btc_daily_events events closed_only) k = Some evt ->
      fetch_event k (slug evt) = Raise exc ->
      nth_error rows k = Some (VDict (blank_summary (slug evt))).
Proof.
  intros Hok. unfold get_all_btc_daily_events_detailed.
  destruct (build_time_series_hydrate fetch_event str_exc json_loads
              (get_all_btc_daily_events events closed_only) 0 Hok)
    as (rows & Hrows & Hlen & Hblank).
  exists rows. split; [exact Hrows|]. split; [|exact Hblank].
  rewrite Hlen. apply Permutation_length.
  unfold get_all_btc_daily_events. fold (selected events closed_only).
  apply sorted_perm.
Qed.

Lemma build_time_series_survives_failed_details_witness :
  exists rows,
    build_time_series loads_fragment
      (get_all_btc_daily_events_detailed one_slug_endpoint message
         [end10; end20; end5] false)
      = Ok rows /\
    List.length rows = List.length (selected [end10; end20; end5] false) /\
    forall k evt exc,
      nth_error (get_all_btc_daily_events [end10; end20; end5] false) k
        = Some evt ->
      one_slug_endpoint k (slug evt) = Raise exc ->
      nth_error rows k = Some (VDict (blank_summary (slug evt))).
Proof.
  apply (build_time_series_survives_failed_details one_slug_endpoint message
           loads_fragment [end10; end20; end5] false).
  intros k s v. unfold one_slug_endpoint.
  destruct (String.eqb s "a"); [|discriminate].
  intros [= <-]. eexists. reflexivity.
Defined.

(** *** Token ids *)

Section Tokens.

Variable json_loads : string -> result value.

Lemma extend_tokens_concat mkts : forall tokens tokss,
  Forall2 (market_tokens json_loads) mkts tokss ->
  extend_tokens json_loads tokens mkts = Ok (tokens ++ List.concat tokss).
Proof.
  induction mkts as [|mkt rest IH]; intros tokens tokss H;
    inversion H as [|? xs ? more (m & -> & Hxs) Hrest]; subst.
  - simpl. now rewrite app_nil_r.
  - cbn [extend_tokens getattr_get bind]. rewrite Hxs. cbn [iterate bind].
    rewrite (IH _ more Hrest). cbn [List.concat]. now rewrite app_assoc.
Qed.

Lemma markets_of_first event m rest :
  markets_of event = VList (VDict m :: rest) ->
  usable_market event = Some m.
Proof.
  unfold markets_of, usable_market, or_else.
  destruct (truthy (get_default event "markets" (VList []))) eqn:E;
    [|discriminate].
  now intros ->.
Qed.

End Tokens.

(** X9.  For an event whose markets are dicts with token ids given as
    lists or as JSON texts of lists, [extract_token_ids_from_event] returns
    the token ids of all markets, market after market; they begin with the
    token ids that [summarize_event] reports, which are those of the first
    market.  An event without markets has no token ids. *)
Theorem extract_token_ids_all_markets
    (json_loads : string -> result value) event mkts tokss :
  markets_of event = VList mkts ->
  Forall2 (market_tokens json_loads) mkts tokss ->
  extract_token_ids_from_event json_loads event = Ok (List.concat tokss) /\
  match tokss with
  | [] => mkts = []
  | xs :: _ =>
      exists summary,
        summarize_event json_loads event = Ok (VDict summary) /\
        get summary "clobTokenIds" = VList xs
  end.
Proof.
  intros Hm Hall. split.
  - unfold extract_token_ids_from_event. fold (markets_of event).
    rewrite Hm. cbn [iterate bind].
    now rewrite (extend_tokens_concat json_loads mkts [] tokss Hall).
  - inversion Hall as [|mkt xs rest more (m & -> & Hxs) Hrest]; subst;
      [reflexivity|].
    exists (summary_of json_loads event m). split.
    + apply SummarizeFacts.summarize_event_usable.
      now apply (markets_of_first event m rest).
    + exact Hxs.
Qed.

Lemma extract_token_ids_all_markets_witness :
  extract_token_ids_from_event loads_fragment two_market_event =
    Ok (List.concat [[]; [VStr "71"; VStr "52"]]) /\
  exists summary,
    summarize_event loads_fragment two_market_event = Ok (VDict summary) /\
    get summary "clobTokenIds" = VList [].
Proof.
  apply (extract_token_ids_all_markets loads_fragment two_market_event
           [ VDict [ ("clobTokenIds", VStr "[]") ];
             VDict [ ("clobTokenIds", VList [VStr "71"; VStr "52"]) ] ]%string
           [[]; [VStr "71"; VStr "52"]]).
  - reflexivity.
  - repeat constructor; eexists; split; reflexivity.
Defined.

End SeriesFacts.

(* ------------------------------------------------------------------------- *)
(** ** Resampling: missing values and the files written                      *)
(* ------------------------------------------------------------------------- *)

Module FillFacts.
Import Resample ResampleSpec ResampleFacts FillSpec.

(** *** Missing values *)

Lemma ffill_from_some vs : forall x,
  Forall is_some (ffill_from (Some x) vs).
Proof.
  induction vs as [|[y|] r IH]; intros x; cbn [ffill_from]; constructor;
    try discriminate; apply IH.
Qed.

Lemma interpolate_from_some vs : forall g x,
  Forall is_some (interpolate_from (Some (g, x)) vs).
Proof.
  induction vs as [|[y|] r IH]; intros g x; cbn [interpolate_from];
    constructor; try discriminate; try apply IH.
  destruct (next_valid r) as [[d y]|]; discriminate.
Qed.

Section Gaps.

Variables (df : list obs) (rule : positive).
Hypothesis Hne : df <> [].
Hypothesis Hs : by_time df.

Lemma raw_head : exists x r, raw df rule = Some x :: r.
Proof.
  destruct (mean_nonempty _ (first_bucket df rule Hne Hs)) as (x & Hx).
  unfold raw, grid_size. cbn [seq map]. unfold bucket_mean at 1.
  rewrite Hx. eauto.
Qed.

Lemma filled_some method k :
  method = "ffill"%string \/ method = "linear"%string ->
  value_at (resample_df df rule method) k <> Some None.
Proof.
  intros Hm. unfold value_at.
  destruct raw_head as (x & r & Hraw).
  assert (Forall is_some (map snd (resample_df df rule method))) as Hall.
  { destruct Hm as [-> | ->].
    - rewrite (resample_df_ffill_values df rule Hne Hs), Hraw.
      unfold ffill_values. cbn [ffill_from]. constructor; [discriminate|].
      apply ffill_from_some.
    - rewrite (resample_df_linear_values df rule Hne Hs), Hraw.
      unfold interpolate_values. cbn [interpolate_from].
      constructor; [discriminate|]. apply interpolate_from_some. }
  intros E. apply nth_error_In in E.
  rewrite Forall_forall in Hall. now apply (Hall None E).
Qed.

End Gaps.

(** X11.  The missing values of the output: a grid point has no value
    exactly when its bucket is empty and the method is neither ["ffill"]
    nor ["linear"]; under these two methods the output has no gap. *)
Theorem resample_df_missing_values df rule method k :
  df <> [] -> by_time df -> (k < grid_size (Zpos rule) df)%nat ->
  value_at (resample_df df rule method) k = Some None <->
  cell df rule k = [] /\ method <> "ffill"%string /\ method <> "linear"%string.
Proof.
  intros Hne Hs Hk. split.
  - intros E.
    destruct (String.eqb_spec method "ffill") as [->|Hf].
    { now destruct (filled_some df rule Hne Hs "ffill" k (or_introl eq_refl)). }
    destruct (String.eqb_spec method "linear") as [->|Hl].
    { now destruct (filled_some df rule Hne Hs "linear" k (or_intror eq_refl)). }
    split; [|split; assumption].
    unfold value_at in E. rewrite (resample_df_unfold df rule Hne Hs) in E.
    cbv zeta in E.
    rewrite (proj2 (String.eqb_neq _ _) Hf), (proj2 (String.eqb_neq _ _) Hl) in E.
    rewrite (proj2 (resample_mean_split df rule Hne Hs)) in E.
    rewrite (raw_nth df rule k Hk) in E. injection E as E.
    now apply mean_empty in E.
  - intros (Hc & Hf & Hl). unfold value_at.
    rewrite (resample_df_unfold df rule Hne Hs). cbv zeta.
    rewrite (proj2 (String.eqb_neq _ _) Hf), (proj2 (String.eqb_neq _ _) Hl).
    rewrite (proj2 (resample_mean_split df rule Hne Hs)).
    rewrite (raw_nth df rule k Hk). unfold bucket_mean.
    fold (cell df rule k). now rewrite Hc.
Qed.

Lemma resample_df_missing_values_witness :
  value_at (resample_df two_points half_hour "mean") 1 = Some None <->
  cell two_points half_hour 1 = [] /\
  "mean"%string <> "ffill"%string /\ "mean"%string <> "linear"%string.
Proof.
  apply (resample_df_missing_values two_points half_hour "mean" 1%nat).
  - discriminate.
  - repeat constructor. discriminate.
  - vm_compute. lia.
Defined.

Lemma process_file_empty rule method : process_file [] rule method = None.
Proof. reflexivity. Qed.

Lemma process_file_rows df rule method :
  df <> [] -> by_time df ->
  exists rows,
    process_file df rule method = Some rows /\
    map (fun r => fst (fst r)) rows =
      map (grid (first_ts df) (Zpos rule)) (seq 0 (grid_size (Zpos rule) df)).
Proof.
  intros Hne Hs. unfold process_file.
  pose proof (resample_df_index df rule Hne Hs method) as Hi.
  destruct (resample_df df rule method) as [|[start v] rs] eqn:E.
  - unfold grid_size in Hi. discriminate.
  - cbv zeta. eexists. split; [reflexivity|].
    rewrite map_map. cbn [fst]. exact Hi.
Qed.

(** X12.  [process_files] writes one file for each history that has a
    point, in the order of the paths and under the name of its source,
    with one row for each grid point from the first observation to the
    last; a history without points is skipped. *)
Theorem process_files_one_file_per_history dfs rule method :
  Forall (fun d => by_time (snd d)) dfs ->
  Forall2 (fun out d =>
             fst out = fst d /\
             map (fun r => fst (fst r)) (snd out) =
               map (grid (first_ts (snd d)) (Zpos rule))
                   (seq 0 (grid_size (Zpos rule) (snd d))))
          (process_files dfs rule method) (filter nonempty dfs).
Proof.
  induction 1 as [|[stem df] rest Hd Hrest IH]; cbn [process_files filter];
    [constructor|].
  destruct df as [|o r].
  - rewrite process_file_empty. exact IH.
  - cbn [snd] in Hd.
    destruct (process_file_rows (o :: r) rule method ltac:(discriminate) Hd)
      as (rows & -> & Hrows).
    change (nonempty (stem, o :: r)) with true. cbv iota.
    constructor; [|exact IH]. split; [reflexivity | exact Hrows].
Qed.

Lemma process_files_one_file_per_history_witness :
  Forall2 (fun out d =>
             fst out = fst d /\
             map (fun r => fst (fst r)) (snd out) =
               map (grid (first_ts (snd d)) (Zpos half_hour))
                   (seq 0 (grid_size (Zpos half_hour) (snd d))))
          (process_files three_histories half_hour "ffill")
          (filter nonempty three_histories).
Proof.
  apply (process_files_one_file_per_history three_histories half_hour "ffill").
  repeat constructor; discriminate.
Defined.

End FillFacts.

(* ------------------------------------------------------------------------- *)
(** ** The trades recorder                                                    *)
(* ------------------------------------------------------------------------- *)

Module RecorderFacts.
Import Api Recorders RecorderSpec.
Import SeriesSpec.

Section Poll.

Variable fetch_trades : nat -> string -> result value.
Variable time_time : nat -> Q.
Variable str_exc : exn -> string.

Lemma intersperse_cons {A : Type} (sep x y : A) r :
  intersperse sep (x :: y :: r) = x :: sep :: intersperse sep (y :: r).
Proof. reflexivity. Qed.

Lemma poll_loop_trace token_id interval_sec iterations n : forall i,
  0 <= interval_sec ->
  Z.of_nat i + Z.of_nat n = iterations ->
  poll_loop fetch_trades time_time str_exc token_id interval_sec iterations
      i n =
    (intersperse (Sleep interval_sec)
       (map (fun k =>
               Append (record fetch_trades time_time str_exc token_id k))
            (seq i n)), Ok tt).
Proof.
  induction n as [|n IH]; intros i Hi Hn; [reflexivity|].
  cbn [poll_loop]. unfold sleep.
  replace (interval_sec <? 0) with false by (symmetry; apply Z.ltb_ge; lia).
  rewrite (IH (S i) Hi) by lia.
  destruct n as [|n].
  - replace (Z.of_nat i <? iterations - 1) with false
      by (symmetry; apply Z.ltb_ge; lia).
    reflexivity.
  - replace (Z.of_nat i <? iterations - 1) with true
      by (symmetry; apply Z.ltb_lt; lia).
    reflexivity.
Qed.

End Poll.





End RecorderFacts.

(* ------------------------------------------------------------------------- *)
(** ** The price-history fetch: parsing, files and counters                   *)
(* ------------------------------------------------------------------------- *)

Module HistoryFacts.
Import Api Orderbook FetchPricesHistory ApiSpec HistorySpec.

Lemma bind_Ok {A B : Type} (r : result A) (k : A -> result B) v :
  bind r k = Ok v -> exists x, r = Ok x /\ k x = Ok v.
Proof. destruct r as [x|]; [|discriminate]. intros H. now exists x. Qed.

Section Run.

Variable json_loads : string -> result value.
Variable timestamp_of : value -> option Z.
Variable fetch_event : nat -> string -> result value.
Variable fetch_history :
  nat -> value -> Z -> Z -> string -> option Z -> result value.
Variable a : args.
Variable n0 : nat.

Hypothesis Hsleep : (0 <= sleep a)%Q.
Hypothesis Hsized : sized_before fetch_history n0.

(** A loop over tokens whose requests all come before number [n0]. *)
Lemma token_loop_answered slug start_ts end_ts tokens : forall st,
  (history_requests st + List.length tokens <= n0)%nat ->
  token_loop fetch_history a slug start_ts end_ts st tokens =
    ({| files := files st ++
                 answered fetch_history a (history_requests st)
                   (map (fun t => (slug, t, start_ts, end_ts)) tokens);
        fetched := fetched st +
                   List.length
                     (answered fetch_history a (history_requests st)
                        (map (fun t => (slug, t, start_ts, end_ts)) tokens));
        skipped := skipped st;
        event_requests := event_requests st;
        history_requests := history_requests st + List.length tokens |},
     Ok tt).
Proof.
  induction tokens as [|t rest IH]; intros st Hn.
  - cbn [token_loop map answered List.length]. destruct st; cbn.
    now rewrite app_nil_r, !Nat.add_0_r.
  - cbn [List.length] in Hn. cbn [token_loop map answered].
    destruct (fetch_history (history_requests st) t start_ts end_ts
                (interval a) (fidelity_arg a)) as [hist|e] eqn:E.
    + assert (history_requests st < n0)%nat as Hlt by lia.
      destruct (Hsized _ _ _ _ _ _ _ Hlt E) as (k & ->).
      replace (Qle_bool 0 (sleep a)) with true
        by (symmetry; now apply Qle_bool_iff).
      rewrite IH by (cbn; lia).
      cbn [files fetched skipped event_requests history_requests].
      cbn [List.length]. rewrite <- app_assoc. cbn [app].
      f_equal. f_equal; lia.
    + rewrite IH by (cbn; lia).
      cbn [files fetched skipped event_requests history_requests].
      cbn [List.length]. f_equal. f_equal; lia.
Qed.

(** A loop over tokens that makes request number [n0], whose answer has
    no length. *)
Lemma token_loop_unsized slug start_ts end_ts tokens : forall st i t hist e0,
  (history_requests st + i)%nat = n0 ->
  nth_error tokens i = Some t ->
  fetch_history n0 t start_ts end_ts (interval a) (fidelity_arg a) = Ok hist ->
  len hist = Raise e0 ->
  token_loop fetch_history a slug start_ts end_ts st tokens =
    ({| files := files st ++
                 answered fetch_history a (history_requests st)
                   (map (fun t => (slug, t, start_ts, end_ts))
                        (firstn i tokens)) ++
                 [(slug, t, payload a slug t start_ts end_ts hist)];
        fetched := S (fetched st +
                      List.length
                        (answered fetch_history a (history_requests st)
                           (map (fun t => (slug, t, start_ts, end_ts))
                                (firstn i tokens))));
        skipped := skipped st;
        event_requests := event_requests st;
        history_requests := S n0 |},
     Raise e0).
Proof.
  induction tokens as [|t' rest IH]; intros st i t hist e0 Hi Ht Hh Hl.
  - destruct i; discriminate.
  - destruct i as [|i].
    + cbn [nth_error] in Ht. injection Ht as ->.
      rewrite Nat.add_0_r in Hi. cbn [token_loop firstn map answered].
      rewrite Hi, Hh, Hl.
      cbn [files fetched skipped event_requests history_requests app].
      cbn [List.length]. now rewrite Nat.add_0_r.
    + cbn [nth_error] in Ht. cbn [token_loop firstn map answered].
      destruct (fetch_history (history_requests st) t' start_ts end_ts
                  (interval a) (fidelity_arg a)) as [hist'|e] eqn:E.
      * assert (history_requests st < n0)%nat as Hlt by lia.
      destruct (Hsized _ _ _ _ _ _ _ Hlt E) as (k & ->).
        replace (Qle_bool 0 (sleep a)) with true
          by (symmetry; now apply Qle_bool_iff).
        rewrite (IH _ i t hist e0) by (cbn; (lia || assumption)).
        cbn [files fetched skipped event_requests history_requests].
        cbn [List.length]. rewrite <- app_assoc. cbn [app].
        f_equal. f_equal; lia.
      * rewrite (IH _ i t hist e0) by (cbn; (lia || assumption)).
        cbn [files fetched skipped event_requests history_requests].
        reflexivity.
Qed.

Lemma answered_app js : forall n js',
  answered fetch_history a n (js ++ js') =
    answered fetch_history a n js ++
    answered fetch_history a (n + List.length js) js'.
Proof.
  induction js as [|[[[slug t] s] e] rest IH]; intros n js'.
  - cbn. now rewrite Nat.add_0_r.
  - cbn [app answered List.length].
    destruct (fetch_history n t s e (interval a) (fidelity_arg a));
      rewrite IH, <- Nat.add_succ_comm; reflexivity.
Qed.

(** What [prepared_from] gives for a slug and the slugs after it. *)
Lemma prepared_from_cons n slug rest ps :
  prepared_from json_loads timestamp_of fetch_event n (slug :: rest) = Ok ps ->
  exists p ps',
    ps = p :: ps' /\
    prepared json_loads timestamp_of fetch_event n slug = Ok p /\
    prepared_from json_loads timestamp_of fetch_event (S n) rest = Ok ps'.
Proof.
  cbn [prepared_from]. intros H.
  apply bind_Ok in H as (p & Hp & H).
  apply bind_Ok in H as (ps' & Hps & H).
  injection H as <-. now exists p, ps'.
Qed.

(** One turn of the loop over the slugs, read through [prepared]. *)
Lemma slug_loop_step st slug rest p :
  prepared json_loads timestamp_of fetch_event (event_requests st) slug
    = Ok p ->
  match p with
  | None =>
      slug_loop json_loads timestamp_of fetch_event fetch_history a st
        (slug :: rest) =
      slug_loop json_loads timestamp_of fetch_event fetch_history a
        {| files := files st; fetched := fetched st;
           skipped := S (skipped st);
           event_requests := S (event_requests st);
           history_requests := history_requests st |} rest
  | Some js =>
      exists tokens start_ts end_ts,
        js = map (fun t => (slug, t, start_ts, end_ts)) tokens /\
        slug_loop json_loads timestamp_of fetch_event fetch_history a st
          (slug :: rest) =
        let (st2, r) :=
          token_loop fetch_history a slug start_ts end_ts
            {| files := files st; fetched := fetched st;
               skipped := skipped st;
               event_requests := S (event_requests st);
               history_requests := history_requests st |} tokens in
        match r with
        | Raise e => (st2, Raise e)
        | Ok _ =>
            slug_loop json_loads timestamp_of fetch_event fetch_history a
              st2 rest
        end
  end.
Proof.
  unfold prepared. cbn [slug_loop].
  destruct (fetch_event (event_requests st) slug) as [event|e];
    [|discriminate].
  cbn [bind].
  destruct (negb (truthy event)); [now intros [= <-]|].
  destruct (parse_event json_loads timestamp_of event)
    as [[[[token_ids start_ts] end_ts]|]|e]; [| |discriminate]; cbn [bind].
  - destruct (iterate token_ids) as [tokens|e]; [|discriminate]. cbn [bind].
    intros [= <-]. now exists tokens, start_ts, end_ts.
  - now intros [= <-].
Qed.

(** A loop over slugs whose history requests all come before number
    [n0]. *)
Lemma slug_loop_prepared slugs : forall st ps,
  prepared_from json_loads timestamp_of fetch_event (event_requests st) slugs
    = Ok ps ->
  (history_requests st + List.length (jobs_of ps) <= n0)%nat ->
  slug_loop json_loads timestamp_of fetch_event fetch_history a st slugs =
    ({| files := files st ++
                 answered fetch_history a (history_requests st) (jobs_of ps);
        fetched := fetched st +
                   List.length
                     (answered fetch_history a (history_requests st)
                        (jobs_of ps));
        skipped := skipped st + skipped_of ps;
        event_requests := event_requests st + List.length slugs;
        history_requests := history_requests st + List.length (jobs_of ps) |},
     Ok tt).
Proof.
  induction slugs as [|slug rest IH]; intros st ps Hp Hn.
  - cbn in Hp. injection Hp as <-. cbn. destruct st; cbn.
    now rewrite app_nil_r, !Nat.add_0_r.
  - destruct (prepared_from_cons _ _ _ _ Hp) as (p & ps' & -> & Hp1 & Hp2).
    pose proof (slug_loop_step st slug rest p Hp1) as Hstep.
    destruct p as [js|].
    + destruct Hstep as (tokens & start_ts & end_ts & -> & ->).
      unfold jobs_of in Hn. cbn [map List.concat] in Hn.
      fold (jobs_of ps') in Hn. rewrite length_app, length_map in Hn.
      rewrite token_loop_answered by (cbn; lia).
      cbn [files fetched skipped event_requests history_requests].
      rewrite (IH _ ps')
        by (cbn [files fetched skipped event_requests history_requests];
            (assumption || lia)).
      cbn [files fetched skipped event_requests history_requests].
      unfold jobs_of, skipped_of. cbn [map List.concat filter].
      fold (jobs_of ps').
      rewrite answered_app, !length_app, <- app_assoc. f_equal.
      f_equal; rewrite ?length_map; cbn [List.length]; (reflexivity || lia).
    + rewrite Hstep. unfold jobs_of in Hn. cbn [map List.concat app] in Hn.
      fold (jobs_of ps') in Hn.
      rewrite (IH _ ps')
        by (cbn [files fetched skipped event_requests history_requests];
            (assumption || lia)).
      unfold jobs_of, skipped_of. cbn. f_equal. f_equal; lia.
Qed.

(** A loop over slugs that makes history request number [n0], whose
    answer has no length. *)
Lemma slug_loop_unsized slugs : forall st ps i j hist e0,
  prepared_from json_loads timestamp_of fetch_event (event_requests st) slugs
    = Ok ps ->
  (history_requests st + i)%nat = n0 ->
  nth_error (jobs_of ps) i = Some j ->
  answer fetch_history a n0 j = Ok hist ->
  len hist = Raise e0 ->
  exists st',
    slug_loop json_loads timestamp_of fetch_event fetch_history a st slugs
      = (st', Raise e0) /\
    files st' =
      files st ++
      answered fetch_history a (history_requests st) (firstn i (jobs_of ps)) ++
      [file_of a j hist] /\
    fetched st' =
      S (fetched st +
         List.length
           (answered fetch_history a (history_requests st)
              (firstn i (jobs_of ps)))) /\
    history_requests st' = S n0.
Proof.
  induction slugs as [|slug rest IH]; intros st ps i j hist e0 Hp Hi Hj Hh Hl.
  - cbn in Hp. injection Hp as <-. destruct i; discriminate.
  - destruct (prepared_from_cons _ _ _ _ Hp) as (p & ps' & -> & Hp1 & Hp2).
    pose proof (slug_loop_step st slug rest p Hp1) as Hstep.
    destruct p as [js|].
    + destruct Hstep as (tokens & start_ts & end_ts & -> & ->).
      unfold jobs_of in Hj |- *. cbn [map List.concat] in Hj |- *.
      fold (jobs_of ps') in Hj |- *.
      destruct (Nat.lt_ge_cases i (List.length tokens)) as [Hlt|Hge].
      * rewrite nth_error_app1 in Hj by now rewrite length_map.
        rewrite nth_error_map in Hj.
        destruct (nth_error tokens i) as [t|] eqn:Et; [|discriminate].
        injection Hj as <-. cbn [answer] in Hh.
        rewrite (token_loop_unsized slug start_ts end_ts tokens _ i t hist e0)
          by (cbn; assumption).
        eexists. split; [reflexivity|].
        cbn [files fetched skipped event_requests history_requests file_of].
        rewrite firstn_app, length_map.
        replace (i - List.length tokens)%nat with 0%nat by lia.
        cbn [firstn]. rewrite app_nil_r, <- firstn_map. auto.
      * rewrite nth_error_app2 in Hj by now rewrite length_map.
        rewrite length_map in Hj.
        rewrite token_loop_answered by (cbn; lia).
        destruct (IH {| files := files st ++
                          answered fetch_history a (history_requests st)
                            (map (fun t => (slug, t, start_ts, end_ts)) tokens);
                        fetched := fetched st +
                          List.length
                            (answered fetch_history a (history_requests st)
                               (map (fun t => (slug, t, start_ts, end_ts))
                                    tokens));
                        skipped := skipped st;
                        event_requests := S (event_requests st);
                        history_requests :=
                          history_requests st + List.length tokens |}
                    ps' (i - List.length tokens)%nat j hist e0)
          as (st' & Hrun & Hfiles & Hfetched & Hreq);
          try assumption; [cbn; lia|].
        exists st'. split; [exact Hrun|].
        cbn [files fetched skipped event_requests history_requests]
          in Hfiles, Hfetched.
        rewrite Hfiles, Hfetched, Hreq.
        rewrite firstn_app, length_map.
        rewrite (@firstn_all2 _ i
                   (map (fun t => (slug, t, start_ts, end_ts)) tokens))
          by (rewrite length_map; lia).
        rewrite answered_app, length_map, !length_app, <- !app_assoc.
        repeat split. lia.
    + rewrite Hstep. unfold jobs_of in Hj |- *.
      cbn [map List.concat app] in Hj |- *. fold (jobs_of ps') in Hj |- *.
      destruct (IH {| files := files st; fetched := fetched st;
                      skipped := S (skipped st);
                      event_requests := S (event_requests st);
                      history_requests := history_requests st |}
                  ps' i j hist e0)
        as (st' & Hrun & Hfiles & Hfetched & Hreq); try assumption.
      exists st'. auto.
Qed.

End Run.





End HistoryFacts.

Module ParseFacts.
Import Api Orderbook FetchPricesHistory ApiSpec SeriesSpec HistorySpec.
Import HistoryFacts.

Lemma get_or_default (d : dict) k :
  or_else (get d k) (VList []) =
  or_else (get_default d k (VList [])) (VList []).
Proof.
  unfold get. induction d as [|[k' v] d IH]; [reflexivity|].
  cbn [get_default]. now destruct (String.eqb k k').
Qed.

Lemma item0_dict v m :
  item0 v = Ok (VDict m) -> exists rest, v = VList (VDict m :: rest).
Proof.
  destruct v as [|b|n|x|s|xs|kvs]; try discriminate.
  - destruct s; discriminate.
  - destruct xs as [|x rest]; [discriminate|]. intros [= ->]. now exists rest.
Qed.

Lemma getattr_get_dict v k r :
  getattr_get v k = Ok r -> exists m, v = VDict m.
Proof. destruct v; try discriminate. eauto. Qed.

Section Parse.

Variable json_loads : string -> result value.
Variable timestamp_of : value -> option Z.

Lemma token_ids_of_as_list raw toks :
  (forall d, raw <> VDict d) ->
  token_ids_of json_loads raw = Some toks ->
  _as_list json_loads raw = toks.
Proof.
  intros Hd. destruct raw as [|b|n|x|s|xs|kvs]; cbn; try discriminate.
  - destruct (json_loads s); [|discriminate]. now intros [= ->].
  - now intros [= ->].
  - now destruct (Hd kvs).
Qed.

(** What [parse_event] returns on a dict, given its first market. *)
Lemma parse_event_first_market event toks s e :
  parse_event json_loads timestamp_of (VDict event) = Ok (Some (toks, s, e)) ->
  exists m rest,
    markets_of event = VList (VDict m :: rest) /\
    token_ids_of json_loads
      (or_else (get m "clobTokenIds") (get m "tokenIds")) = Some toks.
Proof.
  unfold parse_event. cbn [getattr_get bind].
  rewrite get_or_default. fold (markets_of event).
  destruct (truthy (markets_of event)); [|discriminate]. cbn [negb].
  destruct (item0 (markets_of event)) as [m0|] eqn:E0; [|discriminate].
  cbn [bind].
  destruct (getattr_get m0 "clobTokenIds") as [a|] eqn:Ea; [|discriminate].
  destruct (getattr_get_dict _ _ _ Ea) as (m & ->).
  destruct (item0_dict _ _ E0) as (rest & Hm).
  cbn [getattr_get] in Ea. injection Ea as <-. cbn [bind getattr_get].
  replace (if truthy (get m "clobTokenIds") then Ok (get m "clobTokenIds")
           else Ok (get m "tokenIds"))
    with (Ok (or_else (get m "clobTokenIds") (get m "tokenIds")))
    by (unfold or_else; now destruct (truthy (get m "clobTokenIds"))).
  cbn [bind].
  destruct (token_ids_of json_loads _) as [token_ids|] eqn:Et; [|discriminate].
  intros H.
  apply bind_Ok in H as (start0 & _ & H).
  apply bind_Ok in H as (start_ts & _ & H).
  apply bind_Ok in H as (end_ts & _ & H).
  destruct start_ts as [s'|]; [|discriminate].
  destruct end_ts as [e'|]; [|discriminate].
  injection H as -> _ _. now exists m, rest.
Qed.

End Parse.

(** X15.  When [parse_event] returns token ids for an event, the event has
    a first market that is a dict, [summarize_event] returns a summary of
    it, and - for [clobTokenIds] that is a non-empty list or text - the
    [clobTokenIds] of the summary are the token ids that [parse_event]
    returned. *)
Theorem parse_event_agrees_with_summary
    (json_loads : string -> result value) (timestamp_of : value -> option Z)
    event toks s e :
  parse_event json_loads timestamp_of (VDict event) = Ok (Some (toks, s, e)) ->
  exists m summary,
    usable_market event = Some m /\
    summarize_event json_loads event = Ok (VDict summary) /\
    (truthy (get m "clobTokenIds") = true ->
     (forall d, get m "clobTokenIds" <> VDict d) ->
     get summary "clobTokenIds" = toks).
Proof.
  intros Hp.
  destruct (parse_event_first_market json_loads timestamp_of event toks s e Hp)
    as (m & rest & Hm & Ht).
  pose proof (SeriesFacts.markets_of_first event m rest Hm) as Hu.
  exists m, (summary_of json_loads event m). split; [exact Hu|]. split.
  - now apply SummarizeFacts.summarize_event_usable.
  - intros Htr Hd. unfold or_else in Ht. rewrite Htr in Ht.
    exact (token_ids_of_as_list json_loads _ toks Hd Ht).
Qed.

Lemma parse_event_agrees_with_summary_witness :
  exists m summary,
    usable_market dated_market_event = Some m /\
    summarize_event loads_fragment dated_market_event = Ok (VDict summary) /\
    (truthy (get m "clobTokenIds") = true ->
     (forall d, get m "clobTokenIds" <> VDict d) ->
     get summary "clobTokenIds" = VList [VStr "71"; VStr "52"]).
Proof.
  apply (parse_event_agrees_with_summary loads_fragment dates
           dated_market_event _ 1704067200 1704153600).
  reflexivity.
Defined.

End ParseFacts.

(* ------------------------------------------------------------------------- *)
(** ** The backfill: a candle whose time cannot be converted                 *)
(* ------------------------------------------------------------------------- *)

Module AbortFacts.
Import Datetime FetchCbHistory ChunkSpec BackfillSpec PlanSpec.
Import ChunkFacts BackfillFacts.

Lemma row_of_cases c :
  (valid_time c /\ row_of c = Ok (to_row c)) \/
  (~ valid_time c /\ row_of c = Raise (fromtimestamp_error (c_time c))).
Proof.
  unfold valid_time, row_of, fromtimestamp, row_time, to_row. cbv zeta.
  destruct (in_range _); [left | right]; split;
    (reflexivity || discriminate).
Qed.

(** Conversion in time order stops at the earliest candle that cannot be
    converted. *)
Lemma rows_of_earliest_invalid cs bad :
  StronglySorted (in_order c_time false) cs ->
  In bad cs -> ~ valid_time bad ->
  (forall c, In c cs -> ~ valid_time c -> c_time bad <= c_time c) ->
  rows_of cs = Raise (fromtimestamp_error (c_time bad)).
Proof.
  induction cs as [|h cs IH]; intros Hs Hin Hbad Hmin; [destruct Hin|].
  inversion Hs as [|? ? Hcs Hh]; subst. cbn [rows_of].
  destruct (row_of_cases h) as [[Hv ->]|[Hv ->]]; cbn [bind].
  - destruct Hin as [->|Hin]; [contradiction|].
    rewrite IH; try assumption; [reflexivity|].
    intros c Hc. apply Hmin. now right.
  - f_equal. f_equal.
    assert (c_time bad <= c_time h) by (apply Hmin; [now left | exact Hv]).
    destruct Hin as [->|Hin]; [reflexivity|].
    rewrite Forall_forall in Hh. specialize (Hh bad Hin).
    unfold in_order in Hh. lia.
Qed.

Section Run.

Variable fetch_cb_candles : nat -> datetime -> datetime -> result (list candle).

Lemma main_body_invalid st c response bad :
  fetch_cb_candles (List.length (requested st)) (fst c) (snd c) = Ok response ->
  In bad response -> ~ valid_time bad ->
  (forall cd, In cd response -> ~ valid_time cd -> c_time bad <= c_time cd) ->
  main_body fetch_cb_candles st c =
    ({| file := file st; requested := requested st ++ [c];
        total_chunks := total_chunks st |},
     Raise (fromtimestamp_error (c_time bad))).
Proof.
  intros Hf Hin Hbad Hmin. unfold main_body. destruct c as [cs ce].
  cbn [fst snd] in Hf. rewrite Hf.
  rewrite (rows_of_earliest_invalid (sorted c_time false response) bad).
  - reflexivity.
  - apply sorted_sorted.
  - now apply (proj2 (sorted_In c_time false response bad)).
  - exact Hbad.
  - intros cd Hcd. apply Hmin.
    now apply (proj1 (sorted_In c_time false response cd)).
Qed.

(** The loop when the answer for [c], after the chunks [pre], holds a
    candle whose time cannot be converted. *)
Lemma main_loop_invalid fuel :
  forall span end_ cur pre c post st rs response bad,
  drain fuel span end_ cur = Returned (pre ++ c :: post) ->
  answers fetch_cb_candles (List.length (requested st)) pre rs ->
  Forall (Forall valid_time) rs ->
  fetch_cb_candles (List.length (requested st) + List.length pre)
    (fst c) (snd c) = Ok response ->
  In bad response -> ~ valid_time bad ->
  (forall cd, In cd response -> ~ valid_time cd -> c_time bad <= c_time cd) ->
  main_loop fetch_cb_candles fuel span end_ cur st =
    ({| file := file st ++ written rs;
        requested := requested st ++ pre ++ [c];
        total_chunks := total_chunks st + List.length pre |},
     Raised (fromtimestamp_error (c_time bad))).
Proof.
  induction fuel as [|fuel IH];
    intros span end_ cur pre c post st rs response bad
      Hd Ha Hv Hf Hin Hbad Hmin; [discriminate|].
  simpl in *.
  destruct (daterange_chunks_next span end_ cur) as [c0 cur'| |e0].
  - destruct (drain fuel span end_ cur') as [l'| |] eqn:E; try discriminate.
    injection Hd as Hd.
    destruct pre as [|p pre]; simpl in *.
    + injection Hd as -> ->. destruct rs; [|contradiction].
      rewrite Nat.add_0_r in Hf.
      rewrite (main_body_invalid st c response bad Hf Hin Hbad Hmin).
      destruct st as [f rq t]. simpl. unfold written. simpl.
      rewrite app_nil_r, Nat.add_0_r. reflexivity.
    + injection Hd as -> ->.
      destruct rs as [|r rs]; [contradiction|]. destruct Ha as [Hp Ha].
      inversion Hv as [|? ? Hr Hrs]; subst.
      rewrite (main_body_ok fetch_cb_candles st p r Hp Hr).
      erewrite IH; [| exact E | | exact Hrs | | exact Hin | exact Hbad
                    | exact Hmin].
      * simpl. rewrite written_cons, <- !app_assoc. simpl.
        rewrite Nat.add_succ_r. reflexivity.
      * simpl. rewrite length_app, Nat.add_comm. exact Ha.
      * simpl. rewrite length_app. simpl.
        rewrite <- Hf. f_equal. lia.
  - destruct pre; discriminate.
  - discriminate.
Qed.

End Run.



End AbortFacts.

(* ------------------------------------------------------------------------- *)
(** ** The chosen event and the newest event                                  *)
(* ------------------------------------------------------------------------- *)

Module NewestFacts.
Import Datetime Api ApiSpec ResolveSpec NewestSpec ResolveFacts.

Lemma last_greatest {A : Type} (key : A -> Z) r : forall x,
  StronglySorted (in_order key false) (x :: r) ->
  In (List.last r x) (x :: r) /\
  forall y, In y (x :: r) -> key y <= key (List.last r x).
Proof.
  induction r as [|z r IH]; intros x Hs.
  - cbn. split; [now left|]. intros y [<-|[]]. lia.
  - inversion Hs as [|? ? Hr Hx]; subst.
    destruct (IH z Hr) as [Hin Hmax].
    assert (List.last (z :: r) x = List.last r z) as ->.
    { destruct r as [|w r']; [reflexivity|].
      change (List.last (z :: w :: r') x) with (List.last (w :: r') x).
      apply ResampleFacts.last_nonempty. discriminate. }
    split; [now right|].
    intros y [<-|Hy]; [|now apply Hmax].
    rewrite Forall_forall in Hx. specialize (Hx _ Hin).
    unfold in_order in Hx. exact Hx.
Qed.

Lemma newest_greatest events evt :
  newest events = Some evt ->
  In evt events /\ forall c, In c events -> _end_date c <= _end_date evt.
Proof.
  unfold newest, get_all_btc_daily_events.
  pose proof (sorted_sorted _end_date false events) as Hs.
  destruct (sorted _end_date false events) as [|x r] eqn:E; [discriminate|].
  intros [= <-]. destruct (last_greatest _end_date r x Hs) as [Hin Hmax].
  split.
  - apply (proj1 (sorted_In _end_date false events _)). now rewrite E.
  - intros c Hc. apply Hmax. rewrite <- E.
    now apply (proj2 (sorted_In _end_date false events c)).
Qed.

Lemma newest_exists events :
  events <> [] -> exists evt, newest events = Some evt.
Proof.
  intros Hne. unfold newest, get_all_btc_daily_events.
  destruct (sorted _end_date false events) as [|x r] eqn:E; [|eauto].
  destruct Hne. apply Permutation_nil. rewrite <- E.
  apply sorted_perm.
Qed.

(** X19.  Two readings of "latest".  For events with distinct ends, the
    event that [get_latest_btc_daily_event] chooses is the last event of
    the ordered series - the one that [fetch_latest_orderbooks] and the
    examples take - exactly when every open and future event ends last of
    all events (hence not when two events are open and future). *)
Theorem get_latest_is_newest_iff events now :
  events <> [] ->
  NoDup (map _end_date events) ->
  (exists evt,
     get_latest_btc_daily_event events now = Ok evt /\
     newest events = Some evt) <->
  open_ends_last events now.
Proof.
  intros Hne Hnd. rewrite get_latest_as_resolve.
  destruct (resolve_returns events now Hne) as (evt & Hr).
  destruct (resolve_best events now evt Hr) as (Hin & Hopen & Hnone).
  destruct (newest_exists events Hne) as (nw & Hn).
  destruct (newest_greatest events nw Hn) as (Hnin & Hmax).
  split.
  - intros (e & He & Hnew) c Hc Ho c' Hc'.
    rewrite Hr in He. injection He as <-.
    rewrite Hn in Hnew. injection Hnew as ->.
    destruct (Hopen (ex_intro _ c (conj Hc Ho))) as [_ Hleast].
    specialize (Hleast c Hc Ho). specialize (Hmax c' Hc'). lia.
  - intros Hlast. exists evt. split; [exact Hr|]. rewrite Hn. f_equal.
    apply (same_end_same_event events nw evt Hnd Hnin Hin).
    assert (forall c, In c events -> _end_date c <= _end_date evt) as Hgre.
    { destruct (existsb (is_open_future now) events) eqn:Ex.
      - apply existsb_exists in Ex as (c & Hc & Ho).
        destruct (Hopen (ex_intro _ c (conj Hc Ho))) as [Hevt _].
        exact (Hlast evt Hin Hevt).
      - apply Hnone. intros c Hc.
        destruct (is_open_future now c) eqn:Ho; [|reflexivity].
        assert (existsb (is_open_future now) events = true) as Hx
          by (apply existsb_exists; eauto).
        congruence. }
    specialize (Hgre nw Hnin). specialize (Hmax evt Hin). lia.
Qed.

Lemma get_latest_is_newest_iff_witness :
  (exists evt,
     get_latest_btc_daily_event [end10; end20; end5] 15 = Ok evt /\
     newest [end10; end20; end5] = Some evt) <->
  open_ends_last [end10; end20; end5] 15.
Proof.
  apply (get_latest_is_newest_iff [end10; end20; end5] 15).
  - discriminate.
  - repeat constructor; cbn; intuition discriminate.
Defined.

End NewestFacts.

(* ------------------------------------------------------------------------- *)
(** ** The books of the newest event                                          *)
(* ------------------------------------------------------------------------- *)

Module BooksFacts.
Import Api ApiSpec Orderbook SeriesSpec LatestBooks BooksSpec.

Lemma key_eq_cases a b :
  key_eq a b = true <->
  (a = VNone /\ b = VNone) \/
  (exists s, a = VStr s /\ b = VStr s) \/
  (exists x y, number a = Some x /\ number b = Some y /\ (x == y)%Q).
Proof.
  split.
  - destruct a, b; cbn; intros H; try discriminate;
      try (left; split; reflexivity);
      try (right; right; do 2 eexists; repeat split;
           now apply Qeq_bool_iff).
    right; left. apply String.eqb_eq in H as ->. eauto.
  - intros [[-> ->]|[(s & -> & ->)|(x & y & Ha & Hb & Hxy)]].
    + reflexivity.
    + cbn. apply String.eqb_refl.
    + apply Qeq_bool_iff in Hxy.
      destruct a, b; cbn in *; try discriminate;
        injection Ha as <-; injection Hb as <-; exact Hxy.
Qed.

Lemma key_eq_sym a b : key_eq a b = true -> key_eq b a = true.
Proof.
  rewrite !key_eq_cases.
  intros [[-> ->]|[(s & -> & ->)|(x & y & Ha & Hb & Hxy)]]; eauto.
  right; right. exists y, x. repeat split; try assumption. now symmetry.
Qed.

Lemma key_eq_trans a b c :
  key_eq a b = true -> key_eq b c = true -> key_eq a c = true.
Proof.
  rewrite !key_eq_cases.
  intros [[-> ->]|[(s & -> & ->)|(x & y & Ha & Hb & Hxy)]]
         [[Hb' ->]|[(s' & Hb' & ->)|(y' & z & Hb' & Hc & Hyz)]];
    try (subst; cbn in *; discriminate).
  - left. split; reflexivity.
  - injection Hb' as <-. right; left. eauto.
  - rewrite Hb in Hb'. injection Hb' as <-.
    right; right. exists x, z. repeat split; try assumption.
    now rewrite Hxy.
Qed.

(** Keys that are equal find the same entries. *)
Lemma key_eq_swap q k k' :
  key_eq k k' = true -> key_eq q k = key_eq q k'.
Proof.
  intros H. destruct (key_eq q k) eqn:E1, (key_eq q k') eqn:E2;
    try reflexivity.
  - rewrite (key_eq_trans q k k' E1 H) in E2. discriminate.
  - rewrite (key_eq_trans q k' k E2 (key_eq_sym _ _ H)) in E1. discriminate.
Qed.

Lemma lookup_setitem b k v q :
  lookup (setitem b k v) q = if key_eq q k then Some v else lookup b q.
Proof.
  induction b as [|[k' v'] r IH]; [reflexivity|].
  cbn [setitem lookup]. destruct (key_eq k k') eqn:E.
  - cbn [lookup]. rewrite (key_eq_swap q k k' E).
    now destruct (key_eq q k').
  - cbn [lookup]. rewrite IH.
    destruct (key_eq q k') eqn:E'; [|reflexivity].
    destruct (key_eq q k) eqn:E''; [|reflexivity].
    rewrite (key_eq_trans k q k' (key_eq_sym _ _ E'') E') in E. discriminate.
Qed.

Section Fetch.

Variable fetch_orderbook_rest : nat -> value -> result value.
Variable str_exc : exn -> string.

Lemma books_loop_lookup tokens : forall n b,
  Forall (fun t => hashable t = true) tokens ->
  exists b',
    books_loop fetch_orderbook_rest str_exc n b tokens = Ok b' /\
    forall q,
      lookup b' q =
        match last_answer fetch_orderbook_rest str_exc n tokens q with
        | Some v => Some v
        | None => lookup b q
        end.
Proof.
  induction tokens as [|t rest IH]; intros n b H.
  - exists b. split; reflexivity.
  - inversion H as [|? ? Ht Hrest]; subst.
    cbn [books_loop last_answer]. rewrite Ht.
    destruct (IH (S n) (setitem b t (entry fetch_orderbook_rest str_exc n t))
                Hrest) as (b' & -> & Hb').
    exists b'. split; [reflexivity|]. intros q. rewrite Hb'.
    destruct (last_answer fetch_orderbook_rest str_exc (S n) rest q);
      [reflexivity|].
    rewrite lookup_setitem. now destruct (key_eq q t).
Qed.

End Fetch.

(** X20.  For a last event whose token ids can be hashed,
    [fetch_latest_orderbooks] returns whatever the requests do: it makes
    one request for each token id in turn, and the books hold under each
    token id what the last request made for it gave - the book, or the
    text of the error - and nothing under any other key.  The events
    before the last are not read. *)
Theorem fetch_latest_orderbooks_last_answer
    (json_loads : string -> result value)
    (fetch_orderbook_rest : nat -> value -> result value)
    (str_exc : exn -> string) earlier event tokens :
  extract_token_ids_from_event json_loads event = Ok tokens ->
  Forall (fun t => hashable t = true) tokens ->
  exists b,
    fetch_latest_orderbooks json_loads fetch_orderbook_rest str_exc
      (earlier ++ [VDict event]) = Ok b /\
    forall q,
      lookup b q = last_answer fetch_orderbook_rest str_exc 0 tokens q.
Proof.
  intros He Hh. unfold fetch_latest_orderbooks.
  rewrite rev_app_distr. cbn [rev app]. rewrite He. cbn [bind].
  destruct (books_loop_lookup fetch_orderbook_rest str_exc tokens 0 [] Hh)
    as (b & -> & Hb).
  exists b. split; [reflexivity|]. intros q. rewrite Hb.
  now destruct (last_answer fetch_orderbook_rest str_exc 0 tokens q).
Qed.

Lemma fetch_latest_orderbooks_last_answer_witness :
  exists b,
    fetch_latest_orderbooks loads_fragment books_endpoint message
      ([VDict tidy_event] ++ [VDict two_market_event]) = Ok b /\
    forall q,
      lookup b q =
        last_answer books_endpoint message 0 [VStr "71"; VStr "52"] q.
Proof.
  apply (fetch_latest_orderbooks_last_answer loads_fragment books_endpoint
           message [VDict tidy_event] two_market_event
           [VStr "71"; VStr "52"]).
  - reflexivity.
  - repeat constructor.
Defined.

End BooksFacts.
